(** * Trade-in IMEI verification pipeline of the AT&T shopping MCP server

    A shallow embedding of the trade-in part of [server.ts]: the local IMEI
    validator ([validateImeiFormat], [luhnCheck]), the trade-in catalog cache
    ([fetchTradeInData]), the catalog resolvers ([getTradeInValue],
    [matchImeiToTradeIn]), the Hyla gateway client ([callHylaGateway]) and the
    two tool handlers that gate the trade-in value ([get_tradein_value],
    [validate_imei]).

    Conventions of the embedding.
    - A JavaScript string is a [string] whose characters are read as the code
      units U+0000..U+00FF; [toLowerCase], the class [\s] and the class [\d]
      are the restrictions of the JavaScript ones to that range.
    - A JavaScript number that the pipeline computes with is an integer [Z] or
      [NaN] (type [jsnum]). A price is a JSON number, taken to be finite: a
      rational [Q], of which every finite double is one; the product with
      the multiplier and [Math.round], the nearest integer with a half going
      up, are computed on it exactly, which is what they are on doubles.
    - The catalog document is whatever JSON value the endpoint sends: a falsy
      value such as [null], a document with the members the interfaces of
      [server.ts] declare, or a value without a [devices] array, on which
      [data.devices.find] throws (type [CatalogValue]). A value that has a
      [devices] array is taken to be typed as declared all the way down.
    - The clock, the network and exceptions are explicit: a computation of the
      server is a function from the process state [World] to an [outcome]
      (a returned value or a thrown exception) and the next state; the
      answers of the outside world come from an environment [Env].
    - The text a tool handler returns is modelled by the branch that built it
      together with the values interpolated into it. *)

From Stdlib Require Import ZArith NArith List String Ascii Bool Lia.
From Stdlib Require Import QArith Qround DecimalString.
Import ListNotations.

Local Open Scope string_scope.
Local Open Scope Z_scope.

(** ** JavaScript primitives used by the pipeline *)

Module JS.

(** Numbers: an integer or [NaN]. *)
Inductive jsnum : Type :=
| NaN
| Num (z : Z).

(** [!!n]: a number is truthy unless it is [0] or [NaN]. *)
Definition truthy (n : jsnum) : bool :=
  match n with
  | NaN => false
  | Num z => negb (z =? 0)
  end.

(** [a + b], [a * b], [a - b], [a % b] and the comparisons [a > b],
    [a >= b], [a < b], [a === b]; every comparison with [NaN] is false. *)
Definition lift2 (f : Z -> Z -> Z) (a b : jsnum) : jsnum :=
  match a, b with
  | Num x, Num y => Num (f x y)
  | _, _ => NaN
  end.
Definition add := lift2 Z.add.
Definition mul := lift2 Z.mul.
Definition sub := lift2 Z.sub.
Definition rem (a b : jsnum) : jsnum :=
  match a, b with
  | Num x, Num y => if y =? 0 then NaN else Num (Z.rem x y)
  | _, _ => NaN
  end.
Definition cmp (f : Z -> Z -> bool) (a b : jsnum) : bool :=
  match a, b with
  | Num x, Num y => f x y
  | _, _ => false
  end.
Definition gt := cmp Z.gtb.
Definition ge := cmp Z.geb.
Definition lt := cmp Z.ltb.
Definition strict_eq := cmp Z.eqb.

(** Characters as code units. *)
Definition code (c : ascii) : N := N_of_ascii c.

(** The class [\d]. *)
Definition is_digit (c : ascii) : bool :=
  ((48 <=? code c) && (code c <=? 57))%N.

(** The class [\s] below U+0100: tab, line feed, vertical tab, form feed,
    carriage return, space and the no-break space. *)
Definition is_space (c : ascii) : bool :=
  (((9 <=? code c) && (code c <=? 13)) || (code c =? 32) || (code c =? 160))%N.

(** [parseInt(c, 10)] of a one-character string. *)
Definition parseInt_char (c : ascii) : jsnum :=
  if is_digit c then Num (Z.of_N (code c) - 48) else NaN.

(** [String.prototype.toLowerCase] below U+0100: the letters A-Z and the
    capital letters U+00C0..U+00DE, the sign U+00D7 apart. *)
Definition lower_char (c : ascii) : ascii :=
  let n := code c in
  if (((65 <=? n) && (n <=? 90))
      || ((192 <=? n) && (n <=? 222) && negb (n =? 215)))%N
  then ascii_of_N (n + 32) else c.

Fixpoint toLowerCase (s : string) : string :=
  match s with
  | EmptyString => EmptyString
  | String c r => String (lower_char c) (toLowerCase r)
  end.

(** [s.includes(t)]: [t] occurs in [s] as a contiguous block. *)
Fixpoint includes (s t : string) : bool :=
  if prefix t s then true
  else match s with
       | EmptyString => false
       | String _ r => includes r t
       end.

(** [s.replace(/[class]/g, "")]: drop every character of the class. *)
Fixpoint remove_chars (cls : ascii -> bool) (s : string) : string :=
  match s with
  | EmptyString => EmptyString
  | String c r =>
      if cls c then remove_chars cls r else String c (remove_chars cls r)
  end.

(** Every character of [s] satisfies [p]. *)
Fixpoint all_chars (p : ascii -> bool) (s : string) : bool :=
  match s with
  | EmptyString => true
  | String c r => p c && all_chars p r
  end.

(** [!!s]: a string is truthy unless it is empty. *)
Definition nonempty (s : string) : bool :=
  match s with
  | EmptyString => false
  | String _ _ => true
  end.

(** [a || b] on strings. *)
Definition or_else (a b : string) : string :=
  if nonempty a then a else b.

(** [String(n)] of an integer and the interpolation of a length. *)
Definition string_of_Z (z : Z) : string :=
  NilZero.string_of_int (Z.to_int z).
Definition string_of_nat (n : nat) : string :=
  NilZero.string_of_uint (Nat.to_uint n).

(** [xs.join(sep)]. *)
Definition join (sep : string) (xs : list string) : string :=
  String.concat sep xs.

(** The double quote, for the messages that quote their input. *)
Definition dquote : string := String (ascii_of_N 34) EmptyString.

(** [Math.round]: the nearest integer, a half rounding up. *)
Definition Math_round (q : Q) : Z := Qfloor (q + (1 # 2)).

End JS.

(** ** The local IMEI validator *)

(** The record [validateImeiFormat] returns. *)
Record ImeiValidation : Type := mkImeiValidation {
  iv_valid : bool;
  iv_cleanImei : string;
  iv_luhnValid : bool;
  iv_message : string
}.

(** The class [[\s\-().]] of the separators removed from the input. *)
Definition is_separator (c : ascii) : bool :=
  JS.is_space c
  || (JS.code c =? 45)%N || (JS.code c =? 40)%N
  || (JS.code c =? 41)%N || (JS.code c =? 46)%N.

(** The loop of [luhnCheck] from index [i] on, with the running [sum]. *)
Fixpoint luhn_loop (imei : string) (i : nat) (sum : JS.jsnum) : JS.jsnum :=
  match imei with
  | EmptyString => sum
  | String c rest =>
      let digit := JS.parseInt_char c in
      let digit :=
        if (i mod 2 =? 1)%nat then
          let digit := JS.mul digit (JS.Num 2) in
          if JS.gt digit (JS.Num 9) then JS.sub digit (JS.Num 9) else digit
        else digit in
      luhn_loop rest (S i) (JS.add sum digit)
  end.

Definition luhnCheck (imei : string) : bool :=
  JS.strict_eq (JS.rem (luhn_loop imei 0 (JS.Num 0)) (JS.Num 10)) (JS.Num 0).

(** The test [/^\d{15}$/]. *)
Definition fifteen_digits (s : string) : bool :=
  (String.length s =? 15)%nat && JS.all_chars JS.is_digit s.

Definition length_message (cleanImei : string) : string :=
  "IMEI must be exactly 15 digits. Received "
  ++ JS.string_of_nat (String.length cleanImei)
  ++ " digit" ++ (if (String.length cleanImei =? 1)%nat then EmptyString else "s")
  ++ ": " ++ JS.dquote ++ cleanImei ++ JS.dquote.

Definition digits_message (cleanImei : string) : string :=
  "IMEI must contain only digits. Received: "
  ++ JS.dquote ++ cleanImei ++ JS.dquote.

Definition checksum_message : string :=
  "IMEI failed Luhn checksum verification. This is likely not a valid IMEI number.".

Definition valid_message : string :=
  "IMEI is valid (15 digits, Luhn checksum passed).".

Definition validateImeiFormat (imei : string) : ImeiValidation :=
  let cleanImei := JS.remove_chars is_separator imei in
  if negb (String.length cleanImei =? 15)%nat then
    mkImeiValidation false cleanImei false (length_message cleanImei)
  else if negb (fifteen_digits cleanImei) then
    mkImeiValidation false cleanImei false (digits_message cleanImei)
  else
    let luhnValid := luhnCheck cleanImei in
    if negb luhnValid then
      mkImeiValidation false cleanImei false checksum_message
    else
      mkImeiValidation true cleanImei true valid_message.

(** The checksum as the specification words it, over the digit values:
    positions are counted from the left starting at 0; a digit at an odd
    position is doubled, and 9 is subtracted when the double exceeds 9; the
    identifier is valid when the sum of the transformed digits is a multiple
    of 10. *)
Module ChecksumSpec.

Definition transform (position : nat) (d : Z) : Z :=
  if Nat.odd position then
    (if 9 <? 2 * d then 2 * d - 9 else 2 * d)
  else d.

Fixpoint transformed_sum (position : nat) (digits : list Z) : Z :=
  match digits with
  | [] => 0
  | d :: rest => transform position d + transformed_sum (S position) rest
  end.

Definition valid (digits : list Z) : bool :=
  transformed_sum 0 digits mod 10 =? 0.

(** The digit values of a string of digits. *)
Fixpoint digit_values (s : string) : list Z :=
  match s with
  | EmptyString => []
  | String c r => (Z.of_N (JS.code c) - 48) :: digit_values r
  end.

End ChecksumSpec.

(** ** The trade-in catalog *)

(** The records of the catalog document; the fields the pipeline never
    reads (promotions, questions) are left out. *)
Record TradeInDevice : Type := mkTradeInDevice {
  device_name : string;
  image : string;
  modelCode : string;
  modelPrice : Q;
  capacity : string
}.

Record TradeInModel : Type := mkTradeInModel {
  model_name : string;
  productFamily : list TradeInDevice
}.

Record TradeInMake : Type := mkTradeInMake {
  make_name : string;
  models : list TradeInModel
}.

Record TradeInCategory : Type := mkTradeInCategory {
  category : string;
  makes : list TradeInMake
}.

Record TradeInApiResponse : Type := mkTradeInApiResponse {
  date : string;
  devices : list TradeInCategory
}.

(** ** The outside world and the process state *)

(** What the code can tell about the JSON value it takes for the catalog,
    the body of a response or the content of the cache: [null] or another
    falsy value ([false], [0], the empty string); a document typed as
    [TradeInApiResponse]; or any other value, a truthy one without a
    [devices] array ([{}], [true], a number, a string, an array), on which
    evaluating [data.devices.find(...)] throws a [TypeError]. *)
Inductive CatalogValue : Type :=
| Null
| Document (data : TradeInApiResponse)
| Shapeless.

(** [!!data]. *)
Definition catalog_truthy (data : CatalogValue) : bool :=
  match data with
  | Null => false
  | _ => true
  end.

(** What [fetch(ATT_TRADEIN_API)] does: the promise rejects (the network is
    down), or a response arrives with a status and a body that is JSON, of
    whatever value, or is not (then [json] is [None] and [response.json()]
    rejects). *)
Inductive CatalogFetch : Type :=
| CatalogNetworkError (error : string)
| CatalogResponse (status : Z) (json : option CatalogValue).

(** The [code] member of the body the gateway answers with: missing (or
    another falsy value), a JSON number, or a non-empty string together with
    the number [Number] reads from it. *)
Inductive CodeField : Type :=
| NoCode
| NumberCode (z : Z)
| StringCode (n : JS.jsnum).

(** The members of the gateway's body that the client reads. *)
Record HylaResponse : Type := mkHylaResponse {
  body_code : CodeField;
  body_message : string
}.

(** The query of the one call to the gateway. *)
Record HylaQuery : Type := mkHylaQuery {
  q_modelCode : string;
  q_imeiEsn : string;
  q_mtn : option string;
  q_response : option string
}.

(** What [fetch(url, ...)] of the gateway does: it rejects, or a response
    arrives with a status and a body that is JSON or is not. *)
Inductive HylaFetch : Type :=
| HylaNetworkError (error : string)
| HylaHttp (status : Z) (json : option HylaResponse).

(** The answers of the outside world, by the number of the request. *)
Record Env : Type := mkEnv {
  now_at : nat -> Z;
  catalog_fetch_at : nat -> CatalogFetch;
  hyla_fetch_at : nat -> HylaQuery -> HylaFetch
}.

(** The module-level variables [tradeInCache] and [tradeInCacheTime], and
    how many times the clock was read and each endpoint was called. *)
Record World : Type := mkWorld {
  tradeInCache : CatalogValue;
  tradeInCacheTime : Z;
  clock_reads : nat;
  catalog_calls : nat;
  hyla_calls : nat
}.

Definition initial_world : World := mkWorld Null 0 0 0 0.

(** [response.ok]. *)
Definition status_ok (status : Z) : bool := (200 <=? status) && (status <=? 299).

Definition TRADEIN_CACHE_TTL : Z := 15 * 60 * 1000.

(** ** Computations: state and exceptions *)

Inductive outcome (A : Type) : Type :=
| Returns (a : A)
| Throws (error : string).
Arguments Returns {A} a.
Arguments Throws {A} error.

Definition M (A : Type) : Type := World -> outcome A * World.

Definition ret {A} (a : A) : M A := fun w => (Returns a, w).

Definition throw {A} (error : string) : M A := fun w => (Throws error, w).

Definition bind {A B} (c : M A) (k : A -> M B) : M B :=
  fun w =>
    match c w with
    | (Returns a, w') => k a w'
    | (Throws e, w') => (Throws e, w')
    end.

(** [try { body } catch (error) { handler }]: the state changes made before
    the exception stay. *)
Definition try_catch {A} (body : M A) (handler : string -> M A) : M A :=
  fun w =>
    match body w with
    | (Returns a, w') => (Returns a, w')
    | (Throws e, w') => handler e w'
    end.

Definition lift {A} (o : outcome A) : M A := fun w => (o, w).

Declare Scope js_scope.
Delimit Scope js_scope with js.
Notation "x <- c ;; k" := (bind c (fun x => k))
  (at level 61, c at next level, right associativity) : js_scope.
Local Open Scope js_scope.

Section Effects.

Context (env : Env).

(** [Date.now()]. *)
Definition Date_now : M Z :=
  fun w =>
    (Returns (now_at env (clock_reads w)),
     mkWorld (tradeInCache w) (tradeInCacheTime w) (S (clock_reads w))
             (catalog_calls w) (hyla_calls w)).

(** [await fetch(ATT_TRADEIN_API)]: one outbound call. *)
Definition fetch_catalog : M (Z * option CatalogValue) :=
  fun w =>
    let w' := mkWorld (tradeInCache w) (tradeInCacheTime w) (clock_reads w)
                      (S (catalog_calls w)) (hyla_calls w) in
    match catalog_fetch_at env (catalog_calls w) with
    | CatalogNetworkError e => (Throws e, w')
    | CatalogResponse status json => (Returns (status, json), w')
    end.

(** [await fetch(url, ...)] of the gateway: one outbound call. *)
Definition fetch_hyla (q : HylaQuery) : M (Z * option HylaResponse) :=
  fun w =>
    let w' := mkWorld (tradeInCache w) (tradeInCacheTime w) (clock_reads w)
                      (catalog_calls w) (S (hyla_calls w)) in
    match hyla_fetch_at env (hyla_calls w) q with
    | HylaNetworkError e => (Throws e, w')
    | HylaHttp status json => (Returns (status, json), w')
    end.

Definition read_cache : M (CatalogValue * Z) :=
  fun w => (Returns (tradeInCache w, tradeInCacheTime w), w).

(** [tradeInCache = data; tradeInCacheTime = now]. *)
Definition write_cache (data : CatalogValue) (now : Z) : M unit :=
  fun w =>
    (Returns tt,
     mkWorld data now (clock_reads w) (catalog_calls w) (hyla_calls w)).

(** ** The catalog cache *)

Definition fetchTradeInData : M CatalogValue :=
  now <- Date_now ;;
  cached <- read_cache ;;
  if catalog_truthy (fst cached) && (now - snd cached <? TRADEIN_CACHE_TTL)
  then ret (fst cached)
  else
    try_catch
      (response <- fetch_catalog ;;
       if negb (status_ok (fst response)) then
         throw ("HTTP " ++ JS.string_of_Z (fst response))
       else
         match snd response with
         | None => throw "SyntaxError"
         | Some data => _ <- write_cache data now ;; ret data
         end)
      (fun _ => c <- read_cache ;; ret (fst c)).

(** ** The device resolvers *)

(** The arguments of [getTradeInValue]. *)
Record TradeInArgs : Type := mkTradeInArgs {
  arg_brand : string;
  arg_model : string;
  arg_capacity : option string;
  arg_good_condition : option bool
}.

(** The [device] member of its result. *)
Record DeviceValue : Type := mkDeviceValue {
  dv_brand : string;
  dv_model : string;
  dv_capacity : string;
  dv_image : string;
  base_value : Q;
  condition_value : Z;
  available_capacities : list (string * Q)
}.

Record TradeInValueResult : Type := mkTradeInValueResult {
  tv_success : bool;
  tv_device : option DeviceValue;
  tv_message : string
}.

Definition not_found (message : string) : TradeInValueResult :=
  mkTradeInValueResult false None message.

(** [data.devices.find(d => d.category === "phone")]. *)
Definition phoneCategory (data : TradeInApiResponse) : option TradeInCategory :=
  find (fun d => category d =? "phone")%string (devices data).

(** [args.good_condition !== false ? 1 : 0.5]. *)
Definition conditionMultiplier (good_condition : option bool) : Q :=
  match good_condition with
  | Some false => 1 # 2
  | _ => 1
  end.

(** [Math.round(price * conditionMultiplier)]. *)
Definition conditionValue (price : Q) (good_condition : option bool) : Z :=
  JS.Math_round (price * conditionMultiplier good_condition).

(** The two-way containment test of the fuzzy matches. *)
Definition fuzzy_match (name query : string) : bool :=
  JS.includes (JS.toLowerCase name) (JS.toLowerCase query)
  || JS.includes (JS.toLowerCase query) (JS.toLowerCase name).

(** The brand test of [getTradeInValue]: equality up to case. *)
Definition same_brand (name query : string) : bool :=
  (JS.toLowerCase name =? JS.toLowerCase query)%string.

Definition brand_miss_message (brand : string) (ms : list TradeInMake) : string :=
  "Brand " ++ JS.dquote ++ brand ++ JS.dquote
  ++ " not found. Available brands: " ++ JS.join ", " (map make_name ms).

Definition model_miss_message (model brand : string) (ms : list TradeInModel)
  : string :=
  "Model " ++ JS.dquote ++ model ++ JS.dquote ++ " not found for " ++ brand
  ++ ". Available models: "
  ++ JS.join ", " (map model_name (firstn 10 ms)) ++ "...".

(** Reading a member of [undefined]. *)
Definition type_error {A} : outcome A :=
  Throws "TypeError: Cannot read properties of undefined".

(** The body of [getTradeInValue] once [fetchTradeInData] has resolved to
    [data]. *)
Definition getTradeInValue_with (data : CatalogValue)
  (args : TradeInArgs) : outcome TradeInValueResult :=
  match data with
  | Null => Returns (not_found "Unable to fetch trade-in data. Please try again.")
  | Shapeless => type_error
  | Document data =>
  match phoneCategory data with
  | None => Returns (not_found "Trade-in data not available.")
  | Some phone =>
  match find (fun m => same_brand (make_name m) (arg_brand args)) (makes phone) with
  | None => Returns (not_found (brand_miss_message (arg_brand args) (makes phone)))
  | Some make =>
  match find (fun m => fuzzy_match (model_name m) (arg_model args)) (models make) with
  | None =>
      Returns (not_found
                 (model_miss_message (arg_model args) (arg_brand args)
                                     (models make)))
  | Some model =>
      let capacities :=
        map (fun pf => (capacity pf, modelPrice pf)) (productFamily model) in
      let selectedDevice := hd_error (productFamily model) in
      let selectedDevice :=
        match arg_capacity args with
        | Some wanted =>
            if JS.nonempty wanted then
              match find (fun pf => (JS.toLowerCase (capacity pf)
                                     =? JS.toLowerCase wanted)%string)
                         (productFamily model) with
              | Some found => Some found
              | None => selectedDevice
              end
            else selectedDevice
        | None => selectedDevice
        end in
      match selectedDevice with
      | None => type_error
      | Some selected =>
          let value := conditionValue (modelPrice selected)
                                      (arg_good_condition args) in
          Returns (mkTradeInValueResult true
                     (Some (mkDeviceValue (arg_brand args) (model_name model)
                              (capacity selected) (image selected)
                              (modelPrice selected) value capacities))
                     ("Trade-in value for " ++ model_name model ++ " ("
                      ++ capacity selected ++ "): $" ++ JS.string_of_Z value))
      end
  end end end end.

Definition getTradeInValue (args : TradeInArgs) : M TradeInValueResult :=
  data <- fetchTradeInData ;;
  lift (getTradeInValue_with data args).

(** The argument of [matchImeiToTradeIn]. *)
Record ImeiDeviceInfo : Type := mkImeiDeviceInfo {
  info_manufacturer : option string;
  info_model : option string;
  info_modelName : option string;
  info_brand : option string;
  info_capacity : option string
}.

(** [a || b] for an optional string [a]. *)
Definition opt_or (a : option string) (b : string) : string :=
  match a with
  | Some s => JS.or_else s b
  | None => b
  end.

Record MatchedDevice : Type := mkMatchedDevice {
  md_brand : string;
  md_model : string;
  md_capacity : string;
  md_modelCode : string;
  md_available_capacities : list (string * Q * string);
  md_image : string
}.

(** What [matchImeiToTradeIn] resolves to: [{ matched: false }], or
    [{ matched: true, tradeInValue, device }]. *)
Inductive ImeiMatch : Type :=
| NotMatched
| Matched (tradeInValue : Q) (device : MatchedDevice).

Definition no_match : ImeiMatch := NotMatched.

(** The body of [matchImeiToTradeIn] once [fetchTradeInData] has resolved
    to [data]. *)
Definition matchImeiToTradeIn_with (data : CatalogValue)
  (deviceInfo : ImeiDeviceInfo) : outcome ImeiMatch :=
  match data with
  | Null => Returns no_match
  | Shapeless => type_error
  | Document data =>
  match phoneCategory data with
  | None => Returns no_match
  | Some phone =>
      let brandName :=
        opt_or (info_manufacturer deviceInfo)
               (opt_or (info_brand deviceInfo) EmptyString) in
      let modelName :=
        opt_or (info_modelName deviceInfo)
               (opt_or (info_model deviceInfo) EmptyString) in
      let wanted := opt_or (info_capacity deviceInfo) EmptyString in
      if negb (JS.nonempty brandName) && negb (JS.nonempty modelName)
      then Returns no_match
      else
  match find (fun m => fuzzy_match (make_name m) brandName) (makes phone) with
  | None => Returns no_match
  | Some make =>
  match find (fun m => fuzzy_match (model_name m) modelName) (models make) with
  | None => Returns no_match
  | Some model =>
      let selectedDevice := hd_error (productFamily model) in
      let selectedDevice :=
        if JS.nonempty wanted then
          match find (fun pf =>
                        (JS.remove_chars JS.is_space (JS.toLowerCase (capacity pf))
                         =? JS.remove_chars JS.is_space (JS.toLowerCase wanted))%string)
                     (productFamily model) with
          | Some found => Some found
          | None => selectedDevice
          end
        else selectedDevice in
      match selectedDevice with
      | None => type_error
      | Some selected =>
          Returns (Matched (modelPrice selected)
                     (mkMatchedDevice (make_name make) (model_name model)
                        (capacity selected) (modelCode selected)
                        (map (fun pf => (capacity pf, modelPrice pf, modelCode pf))
                             (productFamily model))
                        (image selected)))
      end
  end end end end.

Definition matchImeiToTradeIn (deviceInfo : ImeiDeviceInfo) : M ImeiMatch :=
  data <- fetchTradeInData ;;
  lift (matchImeiToTradeIn_with data deviceInfo).

(** ** The gateway client *)

(** The table [HYLA_ERROR_CODES]. *)
Definition HYLA_ERROR_CODES (code : JS.jsnum) : option string :=
  match code with
  | JS.Num 4009 => Some "IMEI does not match the selected device brand"
  | JS.Num 4010 => Some "IMEI is blacklisted or reported stolen"
  | JS.Num 4011 => Some "Device is not eligible for trade-in"
  | JS.Num 4001 => Some "Invalid IMEI format"
  | JS.Num 4002 => Some "IMEI not found in database"
  | JS.Num 400 =>
      Some "Bad request (missing session token or invalid parameters)"
  | _ => None
  end.

Record HylaParams : Type := mkHylaParams {
  p_modelCode : string;
  p_imei : string;
  p_mtn : option string;
  p_responseToken : option string
}.

(** What [callHylaGateway] resolves to. *)
Record HylaResult : Type := mkHylaResult {
  success : bool;
  data : option HylaResponse;
  status : Z;
  hylaCode : option JS.jsnum;
  hylaMessage : string;
  message : string
}.

(** [if (x) queryParams.set(key, x)]. *)
Definition if_truthy (x : option string) : option string :=
  match x with
  | Some s => if JS.nonempty s then Some s else None
  | None => None
  end.

(** [data?.code ? Number(data.code) : null]. *)
Definition code_of (body : option HylaResponse) : option JS.jsnum :=
  match body with
  | None => None
  | Some d =>
      match body_code d with
      | NoCode => None
      | NumberCode z => if z =? 0 then None else Some (JS.Num z)
      | StringCode n => Some n
      end
  end.

(** [!!code] for a code that may be [null]. *)
Definition has_code (code : option JS.jsnum) : bool :=
  match code with
  | Some n => JS.truthy n
  | None => false
  end.

(** [code >= bound], [code < bound] and [code === k] for such a code; in a
    comparison [null] counts as 0, and [null === k] is false. *)
Definition code_ge (code : option JS.jsnum) (bound : Z) : bool :=
  match code with
  | Some n => JS.ge n (JS.Num bound)
  | None => 0 >=? bound
  end.
Definition code_lt (code : option JS.jsnum) (bound : Z) : bool :=
  match code with
  | Some n => JS.lt n (JS.Num bound)
  | None => 0 <? bound
  end.
Definition code_is (code : option JS.jsnum) (k : Z) : bool :=
  match code with
  | Some n => JS.strict_eq n (JS.Num k)
  | None => false
  end.

(** The rest of the [try] block of [callHylaGateway] once the response has
    arrived: [data] is the parsed body, or [null] when the body is no JSON. *)
Definition interpret_response (httpStatus : Z) (data : option HylaResponse)
  : HylaResult :=
  let hylaCode := code_of data in
  let hylaMessage :=
    match data with
    | Some d => body_message d
    | None => EmptyString
    end in
  if status_ok httpStatus && (negb (has_code hylaCode) || code_lt hylaCode 4000)
  then
    mkHylaResult true data httpStatus hylaCode hylaMessage
                 "Hyla verification successful"
  else
    let knownError :=
      match hylaCode with
      | Some n => if JS.truthy n then HYLA_ERROR_CODES n else None
      | None => None
      end in
    mkHylaResult false data httpStatus hylaCode
      (JS.or_else hylaMessage (opt_or knownError EmptyString))
      (JS.or_else hylaMessage
         (opt_or knownError ("Hyla returned HTTP " ++ JS.string_of_Z httpStatus))).

(** The result built in the [catch] block. *)
Definition unreachable (errMsg : string) : HylaResult :=
  mkHylaResult false None 0 None EmptyString ("Hyla API unreachable: " ++ errMsg).

Definition hyla_query (params : HylaParams) : HylaQuery :=
  mkHylaQuery (p_modelCode params) (p_imei params)
              (if_truthy (p_mtn params)) (if_truthy (p_responseToken params)).

Definition callHylaGateway (params : HylaParams) : M HylaResult :=
  try_catch
    (response <- fetch_hyla (hyla_query params) ;;
     ret (interpret_response (fst response) (snd response)))
    (fun errMsg => ret (unreachable errMsg)).

(** ** The tool handlers *)

(** [if (tradeInData) { const phoneCategory = tradeInData.devices.find(...)]
    of the two handlers: the phone entry of the catalog, none when the
    value is falsy or the document has no such entry. *)
Definition phone_entry (tradeInData : CatalogValue)
  : outcome (option TradeInCategory) :=
  match tradeInData with
  | Null => Returns None
  | Shapeless => type_error
  | Document d => Returns (phoneCategory d)
  end.

(** The model code of the first variant of a model. *)
Definition first_modelCode (mdl : TradeInModel) : string :=
  match productFamily mdl with
  | d :: _ => modelCode d
  | [] => EmptyString
  end.

Definition has_variants (mdl : TradeInModel) : bool :=
  match productFamily mdl with
  | _ :: _ => true
  | [] => false
  end.

(** The nested loops of [get_tradein_value] that look the model code up:
    the makes whose name contains the brand are visited in order; in each
    the first model whose name contains the model and that has a variant
    gives the code; the search stops at the first code that is not empty. *)
Fixpoint lookup_modelCode (brandLower modelLower : string)
  (ms : list TradeInMake) : string :=
  match ms with
  | [] => EmptyString
  | make :: rest =>
      if negb (JS.includes (JS.toLowerCase (make_name make)) brandLower)
      then lookup_modelCode brandLower modelLower rest
      else
        let code :=
          match find (fun mdl =>
                        JS.includes (JS.toLowerCase (model_name mdl)) modelLower
                        && has_variants mdl) (models make) with
          | Some mdl => first_modelCode mdl
          | None => EmptyString
          end in
        if JS.nonempty code then code
        else lookup_modelCode brandLower modelLower rest
  end.

Record GetTradeInValueArgs : Type := mkGetTradeInValueArgs {
  gtv_brand : string;
  gtv_model : string;
  gtv_imei : string;
  gtv_capacity : option string;
  gtv_good_condition : option bool
}.

(** The answers of [get_tradein_value], one per [return] of the handler,
    with the gateway result and the device the text is built from. *)
Inductive TradeInDecision : Type :=
| AskBrandAndModel
| AskImei
| RejectInvalidImei (message : string)
| RejectNotInCatalog (cleanImei : string)
| BlockMismatch (hyla : HylaResult)
| BlockIneligible (hyla : HylaResult)
| BlockUnverifiable (hyla : HylaResult)
| VerifiedNoValue (hyla : HylaResult) (message : string)
| DiscloseValue (hyla : HylaResult) (device : DeviceValue)
| TryAgain.

Definition get_tradein_value (args : GetTradeInValueArgs) : M TradeInDecision :=
  try_catch
    (let brand := gtv_brand args in
     let model := gtv_model args in
     let capacity := opt_or (gtv_capacity args) EmptyString in
     if negb (JS.nonempty brand) || negb (JS.nonempty model)
     then ret AskBrandAndModel
     else if negb (JS.nonempty (gtv_imei args)) then ret AskImei
     else
       let validation := validateImeiFormat (gtv_imei args) in
       if negb (iv_valid validation)
       then ret (RejectInvalidImei (iv_message validation))
       else
         let cleanImei := iv_cleanImei validation in
         tradeInData <- fetchTradeInData ;;
         phoneEntry <- lift (phone_entry tradeInData) ;;
         let modelCode :=
           match phoneEntry with
           | Some phone =>
               lookup_modelCode (JS.toLowerCase brand) (JS.toLowerCase model)
                                (makes phone)
           | None => EmptyString
           end in
         if negb (JS.nonempty modelCode) then ret (RejectNotInCatalog cleanImei)
         else
           hylaResult <- callHylaGateway (mkHylaParams modelCode cleanImei None None) ;;
           if code_is (hylaCode hylaResult) 4009 then ret (BlockMismatch hylaResult)
           else if has_code (hylaCode hylaResult) && code_ge (hylaCode hylaResult) 4010
           then ret (BlockIneligible hylaResult)
           else if negb (success hylaResult) && negb (has_code (hylaCode hylaResult))
           then ret (BlockUnverifiable hylaResult)
           else
             result <- getTradeInValue
                         (mkTradeInArgs brand model (Some capacity)
                                        (gtv_good_condition args)) ;;
             match tv_success result, tv_device result with
             | true, Some device => ret (DiscloseValue hylaResult device)
             | _, _ => ret (VerifiedNoValue hylaResult (tv_message result))
             end)
    (fun _ => ret TryAgain).

Record ValidateImeiArgs : Type := mkValidateImeiArgs {
  vi_imei : string;
  vi_brand : option string;
  vi_model : option string;
  vi_model_code : option string;
  vi_mtn : option string;
  vi_response_token : option string;
  vi_check_tradein : option bool;
  vi_good_condition : option bool
}.

(** The variables [modelCode], [catalogBrand] and [catalogModel] of
    [validate_imei]. *)
Record Lookup : Type := mkLookup {
  lk_modelCode : string;
  lk_catalogBrand : string;
  lk_catalogModel : string
}.

(** The nested loops of [validate_imei]: as in [get_tradein_value], but an
    empty brand or model matches everything, and the names of the catalog
    entry are kept. *)
Fixpoint lookup_catalog (brandLower modelLower : string)
  (ms : list TradeInMake) (st : Lookup) : Lookup :=
  match ms with
  | [] => st
  | make :: rest =>
      if JS.nonempty brandLower
         && negb (JS.includes (JS.toLowerCase (make_name make)) brandLower)
      then lookup_catalog brandLower modelLower rest st
      else
        let st' :=
          match find (fun mdl =>
                        negb (JS.nonempty modelLower
                              && negb (JS.includes (JS.toLowerCase (model_name mdl))
                                                   modelLower))
                        && has_variants mdl) (models make) with
          | Some mdl =>
              mkLookup (first_modelCode mdl) (make_name make) (model_name mdl)
          | None => st
          end in
        if JS.nonempty (lk_modelCode st') then st'
        else lookup_catalog brandLower modelLower rest st'
  end.

(** How the gateway section of the report reads the result. *)
Inductive HylaDisplay : Type :=
| ShowVerified
| ShowMismatch
| ShowDeviceIssue
| ShowNoToken
| ShowMessage.

Definition hyla_display (r : HylaResult) : HylaDisplay :=
  if success r then ShowVerified
  else if code_is (hylaCode r) 4009 then ShowMismatch
  else if has_code (hylaCode r) && code_ge (hylaCode r) 4000 then ShowDeviceIssue
  else if (status r =? 400) && negb (has_code (hylaCode r)) then ShowNoToken
  else ShowMessage.

(** The trade-in section of the report, one case per branch of step 5. *)
Inductive TradeInSection : Type :=
| SectionMismatch
| SectionDeviceIssue
| SectionValue (device : MatchedDevice) (baseValue : Q) (value : Z)
| SectionNoMatch
| SectionUnverifiable
| SectionAskDevice
| SectionNone.

(** The answers of [validate_imei]. *)
Inductive ImeiReport : Type :=
| InvalidImei (validation : ImeiValidation)
| ValidImei (cleanImei : string) (modelCode : string)
    (hyla : option HylaResult) (tradein : TradeInSection)
| ValidationFailed.

Definition validate_imei (args : ValidateImeiArgs) : M ImeiReport :=
  try_catch
    (let validation := validateImeiFormat (vi_imei args) in
     if negb (iv_valid validation) then ret (InvalidImei validation)
     else
       let cleanImei := iv_cleanImei validation in
       let start := mkLookup (opt_or (vi_model_code args) EmptyString)
                             (opt_or (vi_brand args) EmptyString)
                             (opt_or (vi_model args) EmptyString) in
       found <-
         (if negb (JS.nonempty (lk_modelCode start))
             && (JS.nonempty (opt_or (vi_brand args) EmptyString)
                 || JS.nonempty (opt_or (vi_model args) EmptyString))
          then
            tradeInData <- fetchTradeInData ;;
            phoneEntry <- lift (phone_entry tradeInData) ;;
            match phoneEntry with
            | Some phone =>
                ret (lookup_catalog
                       (JS.toLowerCase (opt_or (vi_brand args) EmptyString))
                       (JS.toLowerCase (opt_or (vi_model args) EmptyString))
                       (makes phone) start)
            | None => ret start
            end
          else ret start) ;;
       let modelCode := lk_modelCode found in
       hylaResult <-
         (if JS.nonempty modelCode then
            r <- callHylaGateway
                   (mkHylaParams modelCode cleanImei (vi_mtn args)
                                 (vi_response_token args)) ;;
            ret (Some r)
          else ret None) ;;
       let shouldCheckTradeIn :=
         match vi_check_tradein args with
         | Some false => false
         | _ => true
         end in
       let identifiedBrand :=
         JS.or_else (lk_catalogBrand found) (opt_or (vi_brand args) EmptyString) in
       let identifiedModel :=
         JS.or_else (lk_catalogModel found) (opt_or (vi_model args) EmptyString) in
       let hylaVerified :=
         match hylaResult with Some r => success r | None => false end in
       let hylaMismatch :=
         match hylaResult with Some r => code_is (hylaCode r) 4009 | None => false end in
       let hylaDeviceIssue :=
         match hylaResult with
         | Some r =>
             match hylaCode r with
             | Some n => JS.ge n (JS.Num 4010)
             | None => false
             end
         | None => false
         end in
       let hylaNoToken :=
         match hylaResult with
         | Some r => (status r =? 400) && negb (has_code (hylaCode r))
         | None => false
         end in
       let hylaNotCalled :=
         match hylaResult with Some _ => false | None => true end in
       if shouldCheckTradeIn
          && (JS.nonempty identifiedBrand || JS.nonempty identifiedModel)
       then
         if hylaMismatch
         then ret (ValidImei cleanImei modelCode hylaResult SectionMismatch)
         else if hylaDeviceIssue
         then ret (ValidImei cleanImei modelCode hylaResult SectionDeviceIssue)
         else if hylaVerified then
           tradeIn <- matchImeiToTradeIn
                        (mkImeiDeviceInfo (Some identifiedBrand) (Some identifiedModel)
                                          (Some identifiedModel) (Some identifiedBrand)
                                          None) ;;
           match tradeIn with
           | Matched tradeInValue device =>
               ret (ValidImei cleanImei modelCode hylaResult
                      (SectionValue device tradeInValue
                         (conditionValue tradeInValue (vi_good_condition args))))
           | NotMatched =>
               ret (ValidImei cleanImei modelCode hylaResult SectionNoMatch)
           end
         else if hylaNoToken || hylaNotCalled
         then ret (ValidImei cleanImei modelCode hylaResult SectionUnverifiable)
         else ret (ValidImei cleanImei modelCode hylaResult SectionNone)
       else if shouldCheckTradeIn && negb (JS.nonempty identifiedBrand)
               && negb (JS.nonempty identifiedModel)
       then ret (ValidImei cleanImei modelCode hylaResult SectionAskDevice)
       else ret (ValidImei cleanImei modelCode hylaResult SectionNone))
    (fun _ => ret ValidationFailed).

End Effects.

(** ** Notions used to state the properties *)

(** The value a fetch delivers: the body of a response with a success
    status, when it is JSON; every other fetch is a failure. *)
Definition fetched (f : CatalogFetch) : option CatalogValue :=
  match f with
  | CatalogResponse status (Some data) =>
      if status_ok status then Some data else None
  | _ => None
  end.

(** A snapshot is cached and is younger than the freshness window. *)
Definition cache_fresh (w : World) (now : Z) : bool :=
  catalog_truthy (tradeInCache w)
  && (now - tradeInCacheTime w <? TRADEIN_CACHE_TTL).

(** One more reading of the clock, and one more call of the catalog. *)
Definition tick (w : World) : World :=
  mkWorld (tradeInCache w) (tradeInCacheTime w) (S (clock_reads w))
          (catalog_calls w) (hyla_calls w).
Definition tick_fetch (w : World) : World :=
  mkWorld (tradeInCache w) (tradeInCacheTime w) (S (clock_reads w))
          (S (catalog_calls w)) (hyla_calls w).

(** [n] calls of [fetchTradeInData] in a row. *)
Fixpoint fetch_times (env : Env) (n : nat) : M (list CatalogValue) :=
  match n with
  | O => ret []
  | S k =>
      r <- fetchTradeInData env ;;
      rs <- fetch_times env k ;;
      ret (r :: rs)
  end.

(** The four branches of the gate of [get_tradein_value], named as the
    handler's comments and texts name them: code 4009 is the mismatch, a
    code from 4010 on is a device that is not eligible, a failure without
    a code could not be verified, and everything else is taken as
    verified. *)
Inductive VerificationOutcome : Type :=
| Verified
| Mismatch
| DeviceIneligible
| Unverifiable.

Definition gate (r : HylaResult) : VerificationOutcome :=
  if code_is (hylaCode r) 4009 then Mismatch
  else if has_code (hylaCode r) && code_ge (hylaCode r) 4010 then DeviceIneligible
  else if negb (success r) && negb (has_code (hylaCode r)) then Unverifiable
  else Verified.

(** The amount and the gateway result in an answer of [get_tradein_value]. *)
Definition disclosed_value (d : TradeInDecision) : option Z :=
  match d with
  | DiscloseValue _ device => Some (condition_value device)
  | _ => None
  end.

Definition decision_hyla (d : TradeInDecision) : option HylaResult :=
  match d with
  | BlockMismatch r | BlockIneligible r | BlockUnverifiable r
  | VerifiedNoValue r _ | DiscloseValue r _ => Some r
  | _ => None
  end.

(** The amount and the gateway result in an answer of [validate_imei]. *)
Definition report_value (r : ImeiReport) : option Z :=
  match r with
  | ValidImei _ _ _ (SectionValue _ _ value) => Some value
  | _ => None
  end.

Definition report_hyla (r : ImeiReport) : option HylaResult :=
  match r with
  | ValidImei _ _ hyla _ => hyla
  | _ => None
  end.

(** The world after one more call of the gateway. *)
Definition tick_hyla (w : World) : World :=
  mkWorld (tradeInCache w) (tradeInCacheTime w) (clock_reads w)
          (catalog_calls w) (S (hyla_calls w)).

(** The result the client resolves to for an answer of the gateway. *)
Definition client_result (f : HylaFetch) : HylaResult :=
  match f with
  | HylaNetworkError e => unreachable e
  | HylaHttp st body => interpret_response st body
  end.

(** ** Fixtures *)

(** A catalog with one phone, priced 800 and 901 by capacity. *)
Definition fixture_model : TradeInModel :=
  mkTradeInModel "iPhone 15 Pro Max"
    [mkTradeInDevice "iPhone 15 Pro Max 256GB" "256.png" "2380452" 800 "256GB";
     mkTradeInDevice "iPhone 15 Pro Max 512GB" "512.png" "2380453" 901 "512GB"].

Definition fixture_make : TradeInMake := mkTradeInMake "Apple" [fixture_model].

Definition fixture_phone : TradeInCategory :=
  mkTradeInCategory "phone" [fixture_make].

Definition fixture_catalog : TradeInApiResponse :=
  mkTradeInApiResponse "2024-01-01" [fixture_phone].

(** A world whose catalog endpoint serves [fixture_catalog] and whose
    gateway gives the same [answer] to every call. *)
Definition fixture_env (answer : HylaFetch) : Env :=
  mkEnv (fun n => Z.of_nat n)
        (fun _ => CatalogResponse 200 (Some (Document fixture_catalog)))
        (fun _ _ => answer).

Definition fixture_imei : string := "490154203237518".

(** A catalog whose one make has eleven models with one variant each. *)
Definition eleven_models : list TradeInModel :=
  map (fun n => mkTradeInModel n [mkTradeInDevice n "x.png" "1" 100 "64GB"])
      ["Alpha"; "Bravo"; "Charlie"; "Delta"; "Echo"; "Foxtrot"; "Golf";
       "Hotel"; "India"; "Juliett"; "Kilo"].

Definition eleven_catalog : TradeInApiResponse :=
  mkTradeInApiResponse "2024-01-01"
    [mkTradeInCategory "phone" [mkTradeInMake "Acme" eleven_models]].

Definition eleven_env : Env :=
  mkEnv (fun n => Z.of_nat n)
        (fun _ => CatalogResponse 200 (Some (Document eleven_catalog)))
        (fun _ _ => HylaHttp 200 None).

(** A catalog in which a model without variants, iPhone 15, comes before
    the model of [fixture_model]; the gateway verifies every call. *)
Definition hollow_env : Env :=
  mkEnv (fun n => Z.of_nat n)
        (fun _ =>
           CatalogResponse 200
             (Some (Document
                      (mkTradeInApiResponse "2024-01-01"
                         [mkTradeInCategory "phone"
                            [mkTradeInMake "Apple"
                               [mkTradeInModel "iPhone 15" [];
                                fixture_model]]]))))
        (fun _ _ => HylaHttp 200 None).

(** A catalog in which the name of the first model is contained in the
    name of the second, and its world; the gateway verifies every call. *)
Definition nested_catalog : TradeInApiResponse :=
  mkTradeInApiResponse "2024-01-01"
    [mkTradeInCategory "phone"
       [mkTradeInMake "Apple"
          [mkTradeInModel "iPhone 15"
             [mkTradeInDevice "iPhone 15 128GB" "15.png" "1001" 300 "128GB"];
           mkTradeInModel "iPhone 15 Pro"
             [mkTradeInDevice "iPhone 15 Pro 128GB" "15pro.png" "1002" 500
                              "128GB"]]]].

Definition nested_env : Env :=
  mkEnv (fun n => Z.of_nat n)
        (fun _ => CatalogResponse 200 (Some (Document nested_catalog)))
        (fun _ _ => HylaHttp 200 None).

(** The first component of a run from the initial state. *)
Definition run {A} (c : M A) : outcome A := fst (c initial_world).

(** The string [s] with the character at index [i] replaced by [c]; out
    of range it is [s] itself. *)
Fixpoint replace_at (i : nat) (c : ascii) (s : string) {struct s} : string :=
  match s with
  | EmptyString => EmptyString
  | String x r =>
      match i with
      | O => String c r
      | S j => String x (replace_at j c r)
      end
  end.

(** ** The catalog queries *)

(** The body of [getTradeInBrands] once [fetchTradeInData] has resolved to
    [data]. *)
Definition getTradeInBrands_with (data : CatalogValue)
  : outcome (list string) :=
  match data with
  | Null => Returns []
  | Shapeless => type_error
  | Document data =>
      match phoneCategory data with
      | None => Returns []
      | Some phone => Returns (map make_name (makes phone))
      end
  end.


(** The body of [getTradeInModels]. *)
Definition getTradeInModels_with (data : CatalogValue)
  (brand : string) : outcome (list string) :=
  match data with
  | Null => Returns []
  | Shapeless => type_error
  | Document data =>
      match phoneCategory data with
      | None => Returns []
      | Some phone =>
          match find (fun m => same_brand (make_name m) brand) (makes phone) with
          | None => Returns []
          | Some make => Returns (map model_name (models make))
          end
      end
  end.


(** An entry of the result of [searchTradeInDevices]. *)
Record SearchResult : Type := mkSearchResult {
  sr_brand : string;
  sr_model : string;
  sr_capacities : list (string * Q);
  sr_image : string
}.

(** The test of the inner loop, for the lower-cased query [q]. *)
Definition search_hit (q : string) (make : TradeInMake) (model : TradeInModel)
  : bool :=
  JS.includes (JS.toLowerCase (model_name model)) q
  || JS.includes (JS.toLowerCase (make_name make)) q.

(** The object pushed for a model that passes the test. *)
Definition search_entry (make : TradeInMake) (model : TradeInModel)
  : SearchResult :=
  mkSearchResult (make_name make) (model_name model)
    (map (fun pf => (capacity pf, modelPrice pf)) (productFamily model))
    (match productFamily model with
     | pf :: _ => JS.or_else (image pf) EmptyString
     | [] => EmptyString
     end).

(** The two nested loops: the models that pass the test, make by make, in
    the order of the catalog. *)
Definition search_hits (q : string) (ms : list TradeInMake)
  : list SearchResult :=
  flat_map (fun make =>
              map (search_entry make) (filter (search_hit q make) (models make)))
           ms.

(** The body of [searchTradeInDevices]. *)
Definition searchTradeInDevices_with (data : CatalogValue)
  (query : string) : outcome (list SearchResult) :=
  match data with
  | Null => Returns []
  | Shapeless => type_error
  | Document data =>
      match phoneCategory data with
      | None => Returns []
      | Some phone =>
          Returns (firstn 20 (search_hits (JS.toLowerCase query) (makes phone)))
      end
  end.








(** ** Address qualification and the internet plans *)

(** A row of the sheet of internet plans: the fields the qualification code
    reads. *)
Record InternetPlan : Type := mkInternetPlan {
  plan_id : string;
  plan_name : string;
  plan_category : string;
  speed_down : string
}.

(** The value stored by [checkAddressQualification]. *)
Record QualificationState : Type := mkQualificationState {
  q_address : string;
  q_zip : string;
  q_fiber_available : bool;
  q_qualified_at : string
}.

(** The object [qualificationCache]: its own properties, the latest first,
    and its prototype. It is created as [{}], so its prototype is
    [Object.prototype] until an assignment to the key [__proto__] replaces
    it by the object assigned. *)
Record QualStore : Type := mkQualStore {
  own : list (string * QualificationState);
  proto : option QualificationState
}.

Definition empty_store : QualStore := mkQualStore [] None.

(** What [qualificationCache[userId]] evaluates to: a stored state; a
    string or a boolean, the member of a prototype that is a stored state;
    [Object.prototype] or one of its functions; or [undefined]. *)
Inductive Looked : Type :=
| LState (q : QualificationState)
| LText (s : string)
| LFlag (b : bool)
| LObject
| LUndefined.

(** The names of the members of [Object.prototype], the accessor
    [__proto__] apart. *)
Definition object_prototype_names : list string :=
  ["constructor"; "__defineGetter__"; "__defineSetter__"; "hasOwnProperty";
   "__lookupGetter__"; "__lookupSetter__"; "isPrototypeOf";
   "propertyIsEnumerable"; "toString"; "valueOf"; "toLocaleString"].

Fixpoint assoc (key : string) (l : list (string * QualificationState))
  : option QualificationState :=
  match l with
  | [] => None
  | (k, q) :: rest => if (k =? key)%string then Some q else assoc key rest
  end.

Definition inherited (key : string) : Looked :=
  if existsb (String.eqb key) object_prototype_names then LObject
  else LUndefined.

(** [qualificationCache[key]]: the key [__proto__] reads the prototype, as
    it is never an own property; another key reads an own property, or
    else what the prototype chain gives. *)
Definition store_get (st : QualStore) (key : string) : Looked :=
  if (key =? "__proto__")%string then
    match proto st with
    | Some q => LState q
    | None => LObject
    end
  else
    match assoc key (own st) with
    | Some q => LState q
    | None =>
        match proto st with
        | Some q =>
            if (key =? "address")%string then LText (q_address q)
            else if (key =? "zip")%string then LText (q_zip q)
            else if (key =? "fiber_available")%string
                 then LFlag (q_fiber_available q)
            else if (key =? "qualified_at")%string
                 then LText (q_qualified_at q)
            else inherited key
        | None => inherited key
        end
    end.

(** [qualificationCache[key] = q]. *)
Definition store_set (st : QualStore) (key : string) (q : QualificationState)
  : QualStore :=
  if (key =? "__proto__")%string then mkQualStore (own st) (Some q)
  else mkQualStore ((key, q) :: own st) (proto st).

(** [!!v], and the members [v.fiber_available], [v.address] and [v.zip],
    which only a stored state has. *)
Definition looked_truthy (v : Looked) : bool :=
  match v with
  | LState _ => true
  | LText s => JS.nonempty s
  | LFlag b => b
  | LObject => true
  | LUndefined => false
  end.

Definition looked_fiber (v : Looked) : bool :=
  match v with
  | LState q => q_fiber_available q
  | _ => false
  end.

Definition looked_address (v : Looked) : option string :=
  match v with
  | LState q => Some (q_address q)
  | _ => None
  end.

Definition looked_zip (v : Looked) : option string :=
  match v with
  | LState q => Some (q_zip q)
  | _ => None
  end.

Definition in_category (c : string) (p : InternetPlan) : bool :=
  (plan_category p =? c)%string.

(** [zip.substring(0, 2)] and the list [fiberZips]. *)
Definition zipPrefix (zip : string) : string :=
  match zip with
  | String a (String b _) => String a (String b EmptyString)
  | _ => zip
  end.

Definition fiberZips : list string :=
  ["90"; "91"; "92"; "93"; "94"; "95"; "10"; "11"; "12"; "20"; "21"; "22"].

Record CheckArgs : Type := mkCheckArgs {
  ca_address : string;
  ca_city : option string;
  ca_state : option string;
  ca_zip : string;
  ca_user_id : option string
}.

Record QualificationResult : Type := mkQualificationResult {
  qualified : bool;
  fiber_available : bool;
  internet_air_available : bool;
  available_plans : list InternetPlan
}.

(** The body of [checkAddressQualification] once the catalog has loaded:
    [internet] is its sheet of internet plans and [stamp] the text of
    [new Date().toISOString()]. The message of the result is left out. *)
Definition checkAddressQualification (internet : list InternetPlan)
  (stamp : string) (args : CheckArgs) (st : QualStore)
  : QualificationResult * QualStore :=
  let userId := opt_or (ca_user_id args) "default" in
  let fiberAvailable :=
    existsb (String.eqb (zipPrefix (ca_zip args))) fiberZips in
  let st' :=
    store_set st userId
      (mkQualificationState (ca_address args) (ca_zip args) fiberAvailable
                            stamp) in
  let availablePlans :=
    if fiberAvailable then filter (in_category "Fiber") internet
    else filter (in_category "Internet Air") internet in
  (mkQualificationResult true fiberAvailable (negb fiberAvailable)
                         availablePlans, st').

Section InternetPlans.

(** The number [args.min_speed], and the test
    [(parseInt(String(p.speed_down).replace(/\D/g, "")) || 0) >= min_speed]
    on the text of a speed; its arithmetic is not interpreted. *)
Variable MinSpeed : Type.
Variable speed_at_least : string -> MinSpeed -> bool.

Record InternetArgs : Type := mkInternetArgs {
  ia_min_speed : option MinSpeed;
  ia_user_id : option string;
  ia_include_fiber : option bool
}.

(** The body of [getInternetPlans] once the catalog has loaded. *)
Definition getInternetPlans (internet : list InternetPlan) (st : QualStore)
  (args : InternetArgs) : list InternetPlan :=
  let userId := opt_or (ia_user_id args) "default" in
  let qualification := store_get st userId in
  let filtered :=
    match ia_include_fiber args with
    | Some true => filter (in_category "Fiber") internet
    | _ =>
        if looked_truthy qualification then
          if looked_fiber qualification
          then filter (in_category "Fiber") internet
          else filter (in_category "Internet Air") internet
        else filter (in_category "Internet Air") internet
    end in
  match ia_min_speed args with
  | Some m => filter (fun p => speed_at_least (speed_down p) m) filtered
  | None => filtered
  end.

(** The answers of [get_internet_plans]: the text that asks for an address
    check; the qualification status with the plans; the error text. In the
    status a missing address or zip is shown as the empty string. *)
Inductive InternetAnswer : Type :=
| QualificationRequired
| PlansShown (address zip : option string) (fiber : bool)
    (plans : list InternetPlan)
| InternetError.

(** The handler [get_internet_plans]; [load] is what [loadCatalog]
    resolves to, its sheet of internet plans or an exception. The handler
    passes its arguments on with the user id filled in; [include_fiber] is
    not among them. *)
Definition get_internet_plans (load : outcome (list InternetPlan))
  (st : QualStore) (min_speed : option MinSpeed) (user_id : option string)
  : InternetAnswer :=
  let userId := opt_or user_id "default" in
  let qualification := store_get st userId in
  if negb (looked_truthy qualification) then QualificationRequired
  else
    match load with
    | Throws _ => InternetError
    | Returns internet =>
        PlansShown (looked_address qualification) (looked_zip qualification)
          (looked_fiber qualification)
          (getInternetPlans internet st
             (mkInternetArgs min_speed (Some userId) None))
    end.

End InternetPlans.

Arguments mkInternetArgs {MinSpeed}.
Arguments ia_min_speed {MinSpeed}.
Arguments ia_user_id {MinSpeed}.
Arguments ia_include_fiber {MinSpeed}.
Arguments getInternetPlans {MinSpeed}.
Arguments get_internet_plans {MinSpeed}.

(** The answers of [check_address], and the handler. *)
Inductive AddressAnswer : Type :=
| AddressQualified (fiber : bool)
| AddressError.

Definition check_address (load : outcome (list InternetPlan)) (stamp : string)
  (args : CheckArgs) (st : QualStore) : AddressAnswer * QualStore :=
  match load with
  | Throws _ => (AddressError, st)
  | Returns internet =>
      let (result, st') := checkAddressQualification internet stamp args st in
      (AddressQualified (fiber_available result), st')
  end.

(** The store after a series of address checks, the first of the list
    first, and the user ids they were stored under. *)
Fixpoint checks_run (internet : list InternetPlan)
  (cs : list (string * CheckArgs)) (st : QualStore) : QualStore :=
  match cs with
  | [] => st
  | (stamp, args) :: rest =>
      checks_run internet rest
        (snd (checkAddressQualification internet stamp args st))
  end.

Definition checked_ids (cs : list (string * CheckArgs)) : list string :=
  map (fun c => opt_or (ca_user_id (snd c)) "default") cs.

(** A user id that names no member of [Object.prototype] and no field of
    a stored state. *)
Definition plain_key (key : string) : bool :=
  negb (existsb (String.eqb key)
          ("__proto__" :: "address" :: "zip" :: "fiber_available"
           :: "qualified_at" :: object_prototype_names)).

(** ** The labels of the gateway's fields *)

(** The classes [[A-Z]] and [\w] of the patterns of [formatKey]. *)
Definition is_upper (c : ascii) : bool :=
  ((65 <=? JS.code c) && (JS.code c <=? 90))%N.

Definition is_word (c : ascii) : bool :=
  (is_upper c
   || ((97 <=? JS.code c) && (JS.code c <=? 122))
   || JS.is_digit c
   || (JS.code c =? 95))%N.

Definition underscore : ascii := "_"%char.
Definition space : ascii := " "%char.

(** [c.toUpperCase()] for a character of the class [\w]: the letters a-z
    change, the capitals, the digits and the underscore do not. *)
Definition upper_char (c : ascii) : ascii :=
  if ((97 <=? JS.code c) && (JS.code c <=? 122))%N
  then ascii_of_N (JS.code c - 32) else c.

(** [.replace(/([A-Z])/g, " $1")]: a space before every capital. *)
Fixpoint space_capitals (s : string) : string :=
  match s with
  | EmptyString => EmptyString
  | String c r =>
      if is_upper c then String space (String c (space_capitals r))
      else String c (space_capitals r)
  end.

(** [.replace(/_/g, " ")]. *)
Fixpoint underscores_to_spaces (s : string) : string :=
  match s with
  | EmptyString => EmptyString
  | String c r =>
      String (if (JS.code c =? 95)%N then space else c)
             (underscores_to_spaces r)
  end.

(** [.replace(/^\w/, c => c.toUpperCase())]. *)
Definition capitalize_first (s : string) : string :=
  match s with
  | EmptyString => EmptyString
  | String c r => if is_word c then String (upper_char c) r else s
  end.

(** [.trim()]: the white space at both ends is dropped. *)
Fixpoint trim_start (s : string) : string :=
  match s with
  | EmptyString => EmptyString
  | String c r => if JS.is_space c then trim_start r else s
  end.

Fixpoint trim_end (s : string) : string :=
  match s with
  | EmptyString => EmptyString
  | String c r =>
      match trim_end r with
      | EmptyString => if JS.is_space c then EmptyString
                       else String c EmptyString
      | r' => String c r'
      end
  end.

Definition trim (s : string) : string := trim_end (trim_start s).

Definition formatKey (key : string) : string :=
  trim (capitalize_first (underscores_to_spaces (space_capitals key))).

(** The first and the last character of a string. *)
Definition first_char (s : string) : option ascii :=
  match s with
  | EmptyString => None
  | String c _ => Some c
  end.

Fixpoint last_char (s : string) : option ascii :=
  match s with
  | EmptyString => None
  | String c EmptyString => Some c
  | String _ r => last_char r
  end.

(** The characters that [formatKey] adds, replaces or trims: white space
    and the underscore. *)
Definition is_filler (c : ascii) : bool :=
  JS.is_space c || (JS.code c =? 95)%N.

(** The letters and digits of a string, in lower case. *)
Definition letters (s : string) : string :=
  JS.remove_chars is_filler (JS.toLowerCase s).

(** No character of the string is an underscore. *)
Definition no_underscore (s : string) : bool :=
  JS.all_chars (fun c => negb (JS.code c =? 95)%N) s.

(** The string [s] with the characters at the indices [i] and [i + 1]
    exchanged; [s] itself when one of them is out of range. *)
Definition swap_adjacent (i : nat) (s : string) : string :=
  match get i s, get (S i) s with
  | Some a, Some b => replace_at i b (replace_at (S i) a s)
  | _, _ => s
  end.

(** One step of the case analysis of a run recorded in a hypothesis. *)
Ltac run_step :=
  match goal with
  | H : (_, _) = (_, _) |- _ => inversion H; subst; clear H
  | H : Returns _ = Returns _ |- _ => inversion H; subst; clear H
  | H : Throws _ = Returns _ |- _ => discriminate H
  | H : Some _ = Some _ |- _ => inversion H; subst; clear H
  | H : context [match ?x with _ => _ end] |- _ =>
      destruct x eqn:?; try discriminate
  end; cbv beta iota in *.

(** * Properties *)

(** ** The checksum validator *)

Lemma odd_index (i : nat) : (i mod 2 =? 1)%nat = Nat.odd i.
Proof.
  destruct (Nat.odd i) eqn:E.
  - apply Nat.eqb_eq. apply Nat.odd_spec in E. destruct E as [k ->].
    rewrite Nat.add_comm, Nat.mul_comm, Nat.Div0.mod_add. reflexivity.
  - apply Nat.eqb_neq. intro H.
    assert (Nat.odd i = true) as O.
    { apply Nat.odd_spec. exists (i / 2)%nat.
      pose proof (Nat.div_mod_eq i 2). lia. }
    congruence.
Qed.

Lemma is_digit_value (c : ascii) :
  JS.is_digit c = true -> 0 <= Z.of_N (JS.code c) - 48 <= 9.
Proof.
  unfold JS.is_digit. intro H. apply andb_prop in H as [H1 H2].
  apply N.leb_le in H1, H2. lia.
Qed.

Lemma transform_bounds (i : nat) (d : Z) :
  0 <= d <= 9 -> 0 <= ChecksumSpec.transform i d <= 9.
Proof.
  intro H. unfold ChecksumSpec.transform.
  destruct (Nat.odd i); [destruct (9 <? 2 * d) eqn:E|]; lia.
Qed.

Lemma transformed_sum_nonneg (s : string) (i : nat) :
  JS.all_chars JS.is_digit s = true ->
  0 <= ChecksumSpec.transformed_sum i (ChecksumSpec.digit_values s).
Proof.
  revert i. induction s as [|c r IH]; intros i H; simpl in *; [lia|].
  apply andb_prop in H as [Hc Hr].
  pose proof (transform_bounds i _ (is_digit_value c Hc)).
  specialize (IH (S i) Hr). lia.
Qed.

(** On a string of digits the loop never meets [NaN]: it adds the
    transformed digits to the running sum. *)
Lemma luhn_loop_digits (s : string) (i : nat) (acc : Z) :
  JS.all_chars JS.is_digit s = true ->
  luhn_loop s i (JS.Num acc)
  = JS.Num (acc + ChecksumSpec.transformed_sum i (ChecksumSpec.digit_values s)).
Proof.
  revert i acc. induction s as [|c r IH]; intros i acc H.
  - simpl. f_equal. lia.
  - cbn [JS.all_chars] in H. apply andb_prop in H as [Hc Hr].
    cbn [luhn_loop ChecksumSpec.digit_values ChecksumSpec.transformed_sum].
    rewrite odd_index. unfold JS.parseInt_char. rewrite Hc.
    unfold ChecksumSpec.transform.
    destruct (Nat.odd i).
    + cbn [JS.mul JS.lift2 JS.gt JS.cmp].
      replace ((Z.of_N (JS.code c) - 48) * 2 >? 9)
        with (9 <? 2 * (Z.of_N (JS.code c) - 48))
        by (rewrite Z.gtb_ltb; f_equal; lia).
      destruct (9 <? 2 * (Z.of_N (JS.code c) - 48));
        cbn [JS.sub JS.add JS.lift2];
        rewrite IH by assumption; f_equal; lia.
    + cbn [JS.add JS.lift2]. rewrite IH by assumption. f_equal. lia.
Qed.

Lemma luhnCheck_digits (s : string) :
  JS.all_chars JS.is_digit s = true ->
  luhnCheck s = ChecksumSpec.valid (ChecksumSpec.digit_values s).
Proof.
  intro H. unfold luhnCheck, ChecksumSpec.valid.
  rewrite (luhn_loop_digits s 0 0 H). simpl.
  rewrite Z.rem_mod_nonneg; [reflexivity| |lia].
  apply transformed_sum_nonneg. assumption.
Qed.

(** C3: on every string of 15 digits [luhnCheck] computes the stated
    checksum (positions counted from the left from 0, digits at odd
    positions doubled with 9 subtracted above 9, valid when the sum is a
    multiple of 10); the running sum is a number and never [NaN], so the
    function returns a boolean without an exception; the fixture
    490154203237518 passes and the fixture 490154203237519 fails. *)
Theorem luhnCheck_implements_checksum :
  (forall s : string,
      String.length s = 15%nat ->
      JS.all_chars JS.is_digit s = true ->
      (exists sum : Z,
          0 <= sum /\ luhn_loop s 0 (JS.Num 0) = JS.Num sum
          /\ luhnCheck s = (sum mod 10 =? 0))
      /\ luhnCheck s = ChecksumSpec.valid (ChecksumSpec.digit_values s))
  /\ luhnCheck "490154203237518" = true
  /\ luhnCheck "490154203237519" = false.
Proof.
  split; [|split; reflexivity].
  intros s _ H. split.
  - exists (ChecksumSpec.transformed_sum 0 (ChecksumSpec.digit_values s)).
    split; [apply transformed_sum_nonneg; assumption|].
    split.
    + rewrite (luhn_loop_digits s 0 0 H). reflexivity.
    + rewrite luhnCheck_digits by assumption. reflexivity.
  - apply luhnCheck_digits. assumption.
Qed.

Lemma luhnCheck_implements_checksum_witness :
  String.length "490154203237518" = 15%nat
  /\ luhnCheck "490154203237518"
     = ChecksumSpec.valid (ChecksumSpec.digit_values "490154203237518").
Proof.
  split; [reflexivity|].
  apply (proj1 luhnCheck_implements_checksum "490154203237518");
    reflexivity.
Defined.

(** ** The format validator *)

Lemma remove_chars_clean (cls : ascii -> bool) (s : string) :
  JS.all_chars (fun c => negb (cls c)) (JS.remove_chars cls s) = true.
Proof.
  induction s as [|c r IH]; simpl; [reflexivity|].
  destruct (cls c) eqn:E; simpl; [assumption|].
  rewrite E, IH. reflexivity.
Qed.

Lemma length_message_not_checksum (c : string) :
  length_message c <> checksum_message.
Proof. unfold length_message, checksum_message. simpl. discriminate. Qed.

Lemma digits_message_not_checksum (c : string) :
  digits_message c <> checksum_message.
Proof. unfold digits_message, checksum_message. simpl. discriminate. Qed.

Lemma length_message_not_digits (c d : string) :
  length_message c <> digits_message d.
Proof. unfold length_message, digits_message. simpl. discriminate. Qed.

Lemma valid_message_not_checksum : valid_message <> checksum_message.
Proof. discriminate. Qed.

Lemma fifteen_digits_spec (s : string) :
  fifteen_digits s = true
  <-> String.length s = 15%nat /\ JS.all_chars JS.is_digit s = true.
Proof.
  unfold fifteen_digits. rewrite andb_true_iff, Nat.eqb_eq. reflexivity.
Qed.

(** C5: [validateImeiFormat] removes the separators (white space, hyphen,
    parentheses, period) and then: a cleaned string whose length is not 15
    is rejected with the length message, which reports that length; a
    cleaned string of length 15 with a character that is no digit is
    rejected with the digits message, which differs from the checksum
    message; and the checksum message is given exactly to the strings of 15
    digits that fail the checksum. *)
Theorem validateImeiFormat_rejections (imei : string) :
  let clean := JS.remove_chars is_separator imei in
  let r := validateImeiFormat imei in
  iv_cleanImei r = clean
  /\ JS.all_chars (fun c => negb (is_separator c)) clean = true
  /\ (String.length clean <> 15%nat ->
      iv_valid r = false
      /\ iv_message r
         = "IMEI must be exactly 15 digits. Received "
           ++ JS.string_of_nat (String.length clean)
           ++ " digit"
           ++ (if (String.length clean =? 1)%nat then EmptyString else "s")
           ++ ": " ++ JS.dquote ++ clean ++ JS.dquote
      /\ iv_message r <> checksum_message)
  /\ (String.length clean = 15%nat ->
      JS.all_chars JS.is_digit clean = false ->
      iv_valid r = false
      /\ iv_message r
         = "IMEI must contain only digits. Received: "
           ++ JS.dquote ++ clean ++ JS.dquote
      /\ iv_message r <> checksum_message)
  /\ (iv_message r = checksum_message
      <-> String.length clean = 15%nat
          /\ JS.all_chars JS.is_digit clean = true
          /\ luhnCheck clean = false)
  /\ (iv_message r = checksum_message -> iv_valid r = false)
  /\ (iv_valid r = true
      <-> String.length clean = 15%nat
          /\ JS.all_chars JS.is_digit clean = true
          /\ luhnCheck clean = true).
Proof.
  intros clean r. subst r. unfold validateImeiFormat. fold clean.
  pose proof (length_message_not_checksum clean) as NL.
  pose proof (digits_message_not_checksum clean) as ND.
  pose proof valid_message_not_checksum as NV.
  pose proof (fifteen_digits_spec clean) as F.
  pose proof (remove_chars_clean is_separator imei) as C. fold clean in C.
  destruct (String.length clean =? 15)%nat eqn:L; simpl.
  - apply Nat.eqb_eq in L.
    destruct (fifteen_digits clean) eqn:D; simpl.
    + destruct (proj1 F eq_refl) as [_ A].
      destruct (luhnCheck clean) eqn:K; simpl;
        repeat split; intros;
        repeat match goal with H : _ /\ _ |- _ => destruct H end;
        congruence.
    + assert (JS.all_chars JS.is_digit clean = false) as A.
      { destruct (JS.all_chars JS.is_digit clean) eqn:A; [|reflexivity].
        destruct (proj2 F (conj L eq_refl)). reflexivity. }
      repeat split; intros;
        repeat match goal with H : _ /\ _ |- _ => destruct H end;
        congruence.
  - apply Nat.eqb_neq in L.
    repeat split; intros;
      repeat match goal with H : _ /\ _ |- _ => destruct H end;
      congruence.
Qed.

Lemma validateImeiFormat_rejections_witness :
  iv_message (validateImeiFormat "12345")
  = "IMEI must be exactly 15 digits. Received 5 digits: "
    ++ JS.dquote ++ "12345" ++ JS.dquote
  /\ iv_message (validateImeiFormat "1234-ABCD-5678-90X")
     = "IMEI must contain only digits. Received: "
       ++ JS.dquote ++ "1234ABCD567890X" ++ JS.dquote
  /\ iv_message (validateImeiFormat "490154203237519") = checksum_message.
Proof.
  split; [|split].
  - apply (proj1 (proj2 (proj2 (validateImeiFormat_rejections "12345")))).
    simpl. discriminate.
  - apply (proj1 (proj2 (proj2 (proj2
             (validateImeiFormat_rejections "1234-ABCD-5678-90X")))));
      reflexivity.
  - apply (proj1 (proj2 (proj2 (proj2 (proj2
             (validateImeiFormat_rejections "490154203237519")))))).
    repeat split.
Defined.

(** ** The catalog cache *)

(** What one call of [fetchTradeInData] does, case by case. *)
Lemma fetchTradeInData_run (env : Env) (w : World) :
  fetchTradeInData env w
  = let now := now_at env (clock_reads w) in
    if cache_fresh w now then (Returns (tradeInCache w), tick w)
    else
      match fetched (catalog_fetch_at env (catalog_calls w)) with
      | Some data =>
          (Returns data,
           mkWorld data now (S (clock_reads w)) (S (catalog_calls w))
                   (hyla_calls w))
      | None => (Returns (tradeInCache w), tick_fetch w)
      end.
Proof.
  destruct w as [cache time reads calls hcalls].
  cbv [fetchTradeInData cache_fresh bind Date_now read_cache try_catch
       fetch_catalog fetched tick tick_fetch ret throw write_cache fst snd
       tradeInCache tradeInCacheTime catalog_calls clock_reads hyla_calls].
  destruct (catalog_truthy cache
            && (now_at env reads - time <? TRADEIN_CACHE_TTL));
    [reflexivity|].
  destruct (catalog_fetch_at env calls) as [e|st [d|]];
    try reflexivity; destruct (status_ok st); reflexivity.
Qed.


(** C4: a cached snapshot younger than the 15-minute window is returned
    without a network call; a stale or absent snapshot makes the call issue
    one fetch; when that fetch succeeds the snapshot is replaced by the
    fetched value, whatever it is, and its time set to the time of the
    call; when it fails (network error, status that is no success, body
    that does not parse) the previous snapshot, or null when there is
    none, is returned and the cache is left as it was. *)
Theorem fetchTradeInData_contract (env : Env) (w : World) :
  let now := now_at env (clock_reads w) in
  TRADEIN_CACHE_TTL = 900000
  /\ (forall snapshot,
        tradeInCache w = snapshot ->
        snapshot <> Null ->
        now - tradeInCacheTime w < TRADEIN_CACHE_TTL ->
        exists w',
          fetchTradeInData env w = (Returns snapshot, w')
          /\ catalog_calls w' = catalog_calls w
          /\ tradeInCache w' = snapshot
          /\ tradeInCacheTime w' = tradeInCacheTime w)
  /\ (tradeInCache w = Null \/ TRADEIN_CACHE_TTL <= now - tradeInCacheTime w ->
      exists r w',
        fetchTradeInData env w = (Returns r, w')
        /\ catalog_calls w' = S (catalog_calls w)
        /\ match fetched (catalog_fetch_at env (catalog_calls w)) with
           | Some data =>
               r = data
               /\ tradeInCache w' = data
               /\ tradeInCacheTime w' = now
           | None =>
               r = tradeInCache w
               /\ tradeInCache w' = tradeInCache w
               /\ tradeInCacheTime w' = tradeInCacheTime w
           end).
Proof.
  cbv zeta. split; [reflexivity|]. split.
  - intros snapshot C N F. rewrite fetchTradeInData_run. cbv zeta.
    unfold cache_fresh. rewrite C.
    apply Z.ltb_lt in F. rewrite F.
    assert (catalog_truthy snapshot = true) as ->
        by (destruct snapshot; [contradiction N|..]; reflexivity).
    exists (tick w). repeat split; assumption.
  - intros S. rewrite fetchTradeInData_run. cbv zeta.
    assert (cache_fresh w (now_at env (clock_reads w)) = false) as ->.
    { unfold cache_fresh. destruct S as [-> | S]; [reflexivity|].
      apply andb_false_intro2. apply Z.ltb_ge. assumption. }
    destruct (fetched _); eexists _, _; repeat split.
Qed.

(** A network that is down, a clock that advances by 20 minutes at each
    reading, and a process that holds a snapshot taken at time 0. *)
Lemma fetchTradeInData_contract_witness :
  let env := mkEnv (fun n => Z.of_nat n * 1200000)
                   (fun _ => CatalogNetworkError "ENOTFOUND")
                   (fun _ _ => HylaNetworkError "ENOTFOUND") in
  let snapshot := Document (mkTradeInApiResponse "2024-01-01" []) in
  (exists w',
      fetchTradeInData env (mkWorld snapshot 0 0 0 0)
      = (Returns snapshot, w')
      /\ catalog_calls w' = 0%nat)
  /\ (exists r w',
        fetchTradeInData env (mkWorld snapshot 0 1 0 0) = (Returns r, w')
        /\ catalog_calls w' = 1%nat /\ r = snapshot).
Proof.
  intros env snapshot. split.
  - pose proof (proj1 (proj2 (fetchTradeInData_contract env
                                (mkWorld snapshot 0 0 0 0)))) as H.
    cbv zeta in H. specialize (H snapshot eq_refl).
    assert (snapshot <> Null) as N by discriminate.
    assert (now_at env (clock_reads (mkWorld snapshot 0 0 0 0))
            - tradeInCacheTime (mkWorld snapshot 0 0 0 0)
            < TRADEIN_CACHE_TTL) as L.
    { vm_compute. reflexivity. }
    destruct (H N L) as (w' & E & C & _).
    exists w'. split; assumption.
  - pose proof (proj2 (proj2 (fetchTradeInData_contract env
                                (mkWorld snapshot 0 1 0 0)))) as H.
    cbv zeta in H.
    assert (TRADEIN_CACHE_TTL
            <= now_at env (clock_reads (mkWorld snapshot 0 1 0 0))
               - tradeInCacheTime (mkWorld snapshot 0 1 0 0)) as L.
    { vm_compute. discriminate. }
    destruct (H (or_intror L)) as (r & w' & E & C & R).
    exists r, w'. repeat split; [assumption|assumption|apply R].
Defined.

(** A failed refresh changes neither the snapshot nor its time. *)
Lemma failed_fetch_frame (env : Env) (w : World) :
  cache_fresh w (now_at env (clock_reads w)) = false ->
  fetched (catalog_fetch_at env (catalog_calls w)) = None ->
  fetchTradeInData env w = (Returns (tradeInCache w), tick_fetch w).
Proof.
  intros F N. rewrite fetchTradeInData_run. cbv zeta. rewrite F, N. reflexivity.
Qed.

Lemma stale_stays_stale (env : Env) (w : World) :
  tradeInCache w = Null
  \/ (forall i j, (i <= j)%nat -> now_at env i <= now_at env j) ->
  cache_fresh w (now_at env (clock_reads w)) = false ->
  cache_fresh (tick_fetch w) (now_at env (clock_reads (tick_fetch w))) = false.
Proof.
  intros mono. unfold cache_fresh, tick_fetch. simpl.
  destruct (catalog_truthy (tradeInCache w)) eqn:T; [|reflexivity].
  destruct mono as [E|mono]; [rewrite E in T; discriminate|].
  cbn [andb]. rewrite !Z.ltb_ge. intro H.
  specialize (mono (clock_reads w) (S (clock_reads w)) (Nat.le_succ_diag_r _)).
  lia.
Qed.

(** C10: a failed fetch leaves the snapshot and its time as they were; so
    once the snapshot is stale, with a clock that does not run backwards,
    or absent, each of the next calls issues a fetch as long as the fetches
    fail, and each returns the old snapshot. *)
Theorem failed_refresh_is_not_cached (env : Env) (n : nat) (w : World) :
  tradeInCache w = Null
  \/ (forall i j, (i <= j)%nat -> now_at env i <= now_at env j) ->
  cache_fresh w (now_at env (clock_reads w)) = false ->
  (forall k, (k < n)%nat ->
             fetched (catalog_fetch_at env (catalog_calls w + k)) = None) ->
  exists w',
    fetch_times env n w = (Returns (repeat (tradeInCache w) n), w')
    /\ tradeInCache w' = tradeInCache w
    /\ tradeInCacheTime w' = tradeInCacheTime w
    /\ catalog_calls w' = (catalog_calls w + n)%nat
    /\ cache_fresh w' (now_at env (clock_reads w')) = false.
Proof.
  revert w. induction n as [|n IH]; intros w mono stale fails.
  - exists w. cbn. rewrite Nat.add_0_r. repeat split. assumption.
  - assert (fetched (catalog_fetch_at env (catalog_calls w)) = None) as F0.
    { rewrite <- (Nat.add_0_r (catalog_calls w)). apply fails. lia. }
    destruct (IH (tick_fetch w) mono (stale_stays_stale env w mono stale))
      as (w' & E & C & T & K & S').
    { intros k Hk. cbn [tick_fetch catalog_calls].
      replace (S (catalog_calls w) + k)%nat with (catalog_calls w + S k)%nat by lia.
      apply fails. lia. }
    exists w'. cbn [fetch_times]. unfold bind at 1.
    rewrite (failed_fetch_frame env w stale F0).
    unfold bind at 1. rewrite E. unfold ret.
    cbn [tick_fetch tradeInCache tradeInCacheTime catalog_calls] in *.
    repeat split; try assumption. lia.
Qed.

(** The network is down for good and the clock advances by 20 minutes at
    each reading: three calls in a row issue three fetches. *)
Lemma failed_refresh_is_not_cached_witness :
  let env := mkEnv (fun n => Z.of_nat n * 1200000)
                   (fun _ => CatalogResponse 503 None)
                   (fun _ _ => HylaNetworkError "ENOTFOUND") in
  let w := mkWorld (Document (mkTradeInApiResponse "2024-01-01" [])) 0 1 1 0 in
  exists w',
    fetch_times env 3 w = (Returns (repeat (tradeInCache w) 3), w')
    /\ tradeInCache w' = tradeInCache w
    /\ tradeInCacheTime w' = tradeInCacheTime w
    /\ catalog_calls w' = (catalog_calls w + 3)%nat
    /\ cache_fresh w' (now_at env (clock_reads w')) = false.
Proof.
  intros env w.
  apply (failed_refresh_is_not_cached env 3 w).
  - right. intros i j H. cbn. nia.
  - reflexivity.
  - intros k _. reflexivity.
Defined.

(** ** The gateway client *)

(** What one call of [callHylaGateway] does. *)
Lemma callHylaGateway_run (env : Env) (params : HylaParams) (w : World) :
  callHylaGateway env params w
  = (Returns (client_result
                (hyla_fetch_at env (hyla_calls w) (hyla_query params))),
     tick_hyla w).
Proof.
  cbv [callHylaGateway try_catch bind fetch_hyla ret tick_hyla fst snd
       client_result].
  destruct (hyla_fetch_at env (hyla_calls w) (hyla_query params));
    reflexivity.
Qed.

Lemma interpret_response_fields (st : Z) (body : option HylaResponse) :
  status (interpret_response st body) = st
  /\ data (interpret_response st body) = body
  /\ hylaCode (interpret_response st body) = code_of body
  /\ success (interpret_response st body)
     = status_ok st
       && (negb (has_code (code_of body)) || code_lt (code_of body) 4000).
Proof.
  unfold interpret_response.
  destruct (status_ok st && _); repeat split.
Qed.

(** C9: the gateway client resolves to a structured result for every
    answer of the gateway, whatever the status and whether or not the body
    is JSON; a rejected fetch, and nothing else, gives the result of the
    catch block, a failure without a code that the gate takes as
    unverifiable; and both tool handlers resolve to an answer from every
    state and for every argument, whatever the outside world does. *)
Theorem no_exception_escapes (env : Env) (w : World) :
  (forall params : HylaParams,
      exists r w',
        callHylaGateway env params w = (Returns r, w')
        /\ hyla_calls w' = S (hyla_calls w)
        /\ match hyla_fetch_at env (hyla_calls w) (hyla_query params) with
           | HylaNetworkError e =>
               r = mkHylaResult false None 0 None EmptyString
                                ("Hyla API unreachable: " ++ e)
               /\ gate r = Unverifiable
           | HylaHttp st body =>
               status r = st /\ data r = body /\ hylaCode r = code_of body
               /\ success r
                  = status_ok st
                    && (negb (has_code (code_of body))
                        || code_lt (code_of body) 4000)
           end)
  /\ (forall args : GetTradeInValueArgs,
        exists out w', get_tradein_value env args w = (Returns out, w'))
  /\ (forall args : ValidateImeiArgs,
        exists out w', validate_imei env args w = (Returns out, w')).
Proof.
  split; [|split].
  - intro params. rewrite callHylaGateway_run.
    eexists _, _. split; [reflexivity|]. split; [reflexivity|].
    destruct (hyla_fetch_at env (hyla_calls w) (hyla_query params)).
    + split; reflexivity.
    + apply interpret_response_fields.
  - intro args. unfold get_tradein_value, try_catch.
    match goal with |- context [match ?b w with _ => _ end] =>
      destruct (b w) as [[out|e] w'] end; eexists _, _; reflexivity.
  - intro args. unfold validate_imei, try_catch.
    match goal with |- context [match ?b w with _ => _ end] =>
      destruct (b w) as [[out|e] w'] end; eexists _, _; reflexivity.
Qed.

(** The catch blocks of the handlers are reached: [getTradeInValue] throws
    on a matched model without variants, and [get_tradein_value] answers
    with its fallback text. *)
Lemma exception_in_resolver_is_caught :
  run (getTradeInValue hollow_env
         (mkTradeInArgs "Apple" "iPhone 15 Pro Max" None None))
  = Throws "TypeError: Cannot read properties of undefined"
  /\ run (get_tradein_value hollow_env
            (mkGetTradeInValueArgs "Apple" "iPhone 15 Pro Max" fixture_imei
                                   None None))
     = Returns TryAgain.
Proof. split; reflexivity. Qed.

(** ** The gate of the two handlers *)

Lemma fetchTradeInData_hyla_calls (env : Env) (w w' : World)
  (o : outcome CatalogValue) :
  fetchTradeInData env w = (o, w') -> hyla_calls w' = hyla_calls w.
Proof.
  rewrite fetchTradeInData_run. cbv zeta.
  destruct (cache_fresh w _); [|destruct (fetched _)];
    intro H; inversion H; reflexivity.
Qed.

Lemma gate_verified (r : HylaResult) :
  gate r = Verified
  <-> code_is (hylaCode r) 4009 = false
      /\ has_code (hylaCode r) && code_ge (hylaCode r) 4010 = false
      /\ negb (success r) && negb (has_code (hylaCode r)) = false.
Proof.
  unfold gate.
  destruct (code_is (hylaCode r) 4009);
    destruct (has_code (hylaCode r) && code_ge (hylaCode r) 4010);
    destruct (negb (success r) && negb (has_code (hylaCode r)));
    split; intro H; try discriminate; try reflexivity;
    try (repeat split; reflexivity);
    destruct H as (? & ? & ?); discriminate.
Qed.

(** A value in the answer of [get_tradein_value] went through the gate and
    comes from [getTradeInValue]. *)
Lemma get_tradein_value_disclose (env : Env) (args : GetTradeInValueArgs)
  (w w' : World) (r : HylaResult) (d : DeviceValue) :
  get_tradein_value env args w = (Returns (DiscloseValue r d), w') ->
  exists p w1 w2 res,
    callHylaGateway env p w1 = (Returns r, w2)
    /\ hyla_calls w1 = hyla_calls w
    /\ gate r = Verified
    /\ getTradeInValue env
         (mkTradeInArgs (gtv_brand args) (gtv_model args)
                        (Some (opt_or (gtv_capacity args) EmptyString))
                        (gtv_good_condition args)) w2
       = (Returns res, w')
    /\ tv_success res = true /\ tv_device res = Some d.
Proof.
  intro H. unfold get_tradein_value, try_catch, bind, ret, lift in H.
  repeat run_step.
  eexists _, _, _, _. split; [eassumption|].
  split; [eapply fetchTradeInData_hyla_calls; eassumption|].
  split; [apply gate_verified; auto|].
  split; [eassumption|]. split; assumption.
Qed.

(** A value in the answer of [validate_imei] went through the gate and comes
    from [matchImeiToTradeIn], asked without a capacity. *)
Lemma validate_imei_value (env : Env) (args : ValidateImeiArgs)
  (w w' : World) (c m : string) (h : option HylaResult)
  (dev : MatchedDevice) (base : Q) (v : Z) :
  validate_imei env args w
  = (Returns (ValidImei c m h (SectionValue dev base v)), w') ->
  exists r p w1 w2 info,
    h = Some r
    /\ callHylaGateway env p w1 = (Returns r, w2)
    /\ hyla_calls w1 = hyla_calls w
    /\ success r = true
    /\ gate r = Verified
    /\ vi_check_tradein args <> Some false
    /\ matchImeiToTradeIn env info w2 = (Returns (Matched base dev), w')
    /\ info_capacity info = None
    /\ v = conditionValue base (vi_good_condition args).
Proof.
  intro H. unfold validate_imei, try_catch, bind, ret, lift in H.
  repeat run_step.
  all: eexists _, _, _, _, _; split; [reflexivity|].
  all: split; [eassumption|].
  all: split;
    [first [reflexivity | eapply fetchTradeInData_hyla_calls; eassumption]|].
  all: split; [assumption|].
  all: split;
    [apply gate_verified;
     repeat match goal with H : hylaCode _ = _ |- _ => rewrite H in * end;
     repeat match goal with H : success _ = _ |- _ => rewrite H in * end;
     cbn [has_code code_ge negb andb] in *;
     repeat split; try assumption; try reflexivity;
     match goal with H : JS.ge _ _ = false |- _ => rewrite H end;
     apply andb_false_r|].
  all: split; [congruence|].
  all: split; [eassumption|]. all: split; reflexivity.
Qed.

(** C1, the claim as stated fails: with a gateway result that is a success
    (verified), [validate_imei] called with [check_tradein = false] gives
    no amount, and [get_tradein_value] called with the brand Appl, which
    its own lookup accepts and [getTradeInValue] does not, gives none
    either. *)
Lemma verified_outcome_without_value :
  (exists report hyla,
      run (validate_imei (fixture_env (HylaHttp 200 None))
             (mkValidateImeiArgs fixture_imei (Some "Apple")
                (Some "iPhone 15 Pro Max") None None None (Some false) None))
      = Returns report
      /\ report_hyla report = Some hyla
      /\ success hyla = true /\ gate hyla = Verified
      /\ report_value report = None)
  /\ (exists decision hyla,
        run (get_tradein_value (fixture_env (HylaHttp 200 None))
               (mkGetTradeInValueArgs "Appl" "iPhone 15 Pro Max" fixture_imei
                                      None None))
        = Returns decision
        /\ decision_hyla decision = Some hyla
        /\ success hyla = true /\ gate hyla = Verified
        /\ disclosed_value decision = None).
Proof.
  split; eexists _, _; (split; [vm_compute; reflexivity|]);
    repeat split.
Qed.

(** C1, amended: an amount is surfaced only behind the gate. In
    [validate_imei] an amount is present only if the gateway was called,
    its result is a success and [check_tradein] is not false. In both
    handlers an amount is present only if the result of the gateway call
    passes the gate: it has not the code 4009 (mismatch), has no code from
    4010 on (not eligible) and is not a failure without a code
    (unverifiable); so no amount is present when every answer the gateway
    can give to the call is of one of these three kinds. A verified result
    alone does not surface an amount. *)
Theorem value_only_behind_the_gate (env : Env) (w : World) :
  (forall args out w',
      validate_imei env args w = (Returns out, w') ->
      forall v, report_value out = Some v ->
      exists r p,
        report_hyla out = Some r
        /\ r = client_result (hyla_fetch_at env (hyla_calls w) (hyla_query p))
        /\ success r = true
        /\ vi_check_tradein args <> Some false
        /\ gate r = Verified)
  /\ (forall args out w',
        get_tradein_value env args w = (Returns out, w') ->
        forall v, disclosed_value out = Some v ->
        exists r p,
          decision_hyla out = Some r
          /\ r = client_result (hyla_fetch_at env (hyla_calls w) (hyla_query p))
          /\ code_is (hylaCode r) 4009 = false
          /\ has_code (hylaCode r) && code_ge (hylaCode r) 4010 = false
          /\ negb (success r) && negb (has_code (hylaCode r)) = false)
  /\ ((forall q, gate (client_result (hyla_fetch_at env (hyla_calls w) q))
                 <> Verified) ->
      (forall args out w',
          validate_imei env args w = (Returns out, w') ->
          report_value out = None)
      /\ (forall args out w',
            get_tradein_value env args w = (Returns out, w') ->
            disclosed_value out = None)).
Proof.
  assert (forall args out w',
             validate_imei env args w = (Returns out, w') ->
             forall v, report_value out = Some v ->
             exists r p,
               report_hyla out = Some r
               /\ r = client_result
                        (hyla_fetch_at env (hyla_calls w) (hyla_query p))
               /\ success r = true
               /\ vi_check_tradein args <> Some false
               /\ gate r = Verified) as A.
  { intros args out w' H v V.
    destruct out as [|c m h [| |dev base v'| | | |]|]; try discriminate.
    destruct (validate_imei_value _ _ _ _ _ _ _ _ _ _ H)
      as (r & p & w1 & w2 & info & -> & C & K & S & G & T & _).
    rewrite callHylaGateway_run in C. injection C as R _. rewrite K in R.
    exists r, p. repeat split; auto. }
  assert (forall args out w',
             get_tradein_value env args w = (Returns out, w') ->
             forall v, disclosed_value out = Some v ->
             exists r p,
               decision_hyla out = Some r
               /\ r = client_result
                        (hyla_fetch_at env (hyla_calls w) (hyla_query p))
               /\ gate r = Verified) as B.
  { intros args out w' H v V.
    destruct out as [| | | | | | | |r d|]; try discriminate.
    destruct (get_tradein_value_disclose _ _ _ _ _ _ H)
      as (p & w1 & w2 & res & C & K & G & _).
    rewrite callHylaGateway_run in C. injection C as R _. rewrite K in R.
    exists r, p. repeat split; auto. }
  split; [exact A|]. split.
  - intros args out w' H v V.
    destruct (B args out w' H v V) as (r & p & D & E & G).
    exists r, p. split; [assumption|]. split; [assumption|].
    apply gate_verified. assumption.
  - intro blocked. split; intros args out w' H.
    + destruct (report_value out) as [v|] eqn:V; [|reflexivity].
      destruct (A args out w' H v V) as (r & p & _ & E & _ & _ & G).
      subst r. destruct (blocked _ G).
    + destruct (disclosed_value out) as [v|] eqn:V; [|reflexivity].
      destruct (B args out w' H v V) as (r & p & _ & E & G).
      subst r. destruct (blocked _ G).
Qed.

(** A gateway that is unreachable: neither handler gives an amount. *)
Lemma value_only_behind_the_gate_witness :
  (exists out w',
      validate_imei (fixture_env (HylaNetworkError "ECONNREFUSED"))
        (mkValidateImeiArgs fixture_imei (Some "Apple")
           (Some "iPhone 15 Pro Max") None None None None None)
        initial_world = (Returns out, w')
      /\ report_value out = None)
  /\ (exists out w',
        get_tradein_value (fixture_env (HylaNetworkError "ECONNREFUSED"))
          (mkGetTradeInValueArgs "Apple" "iPhone 15 Pro Max" fixture_imei
                                 None None)
          initial_world = (Returns out, w')
        /\ disclosed_value out = None).
Proof.
  destruct (proj2 (proj2 (value_only_behind_the_gate
                            (fixture_env (HylaNetworkError "ECONNREFUSED"))
                            initial_world))) as [V G].
  { intro q. cbn. discriminate. }
  split.
  - eassert (validate_imei (fixture_env (HylaNetworkError "ECONNREFUSED"))
               (mkValidateImeiArgs fixture_imei (Some "Apple")
                  (Some "iPhone 15 Pro Max") None None None None None)
               initial_world = (Returns _, _)) as E
      by (vm_compute; reflexivity).
    eexists _, _. split; [exact E|]. apply (V _ _ _ E).
  - eassert (get_tradein_value (fixture_env (HylaNetworkError "ECONNREFUSED"))
               (mkGetTradeInValueArgs "Apple" "iPhone 15 Pro Max" fixture_imei
                                      None None)
               initial_world = (Returns _, _)) as E
      by (vm_compute; reflexivity).
    eexists _, _. split; [exact E|]. apply (G _ _ _ E).
Defined.

(** ** The mapping of the gateway's codes *)

Lemma code_is_spec (code : option JS.jsnum) (k : Z) :
  code_is code k = true <-> code = Some (JS.Num k).
Proof.
  destruct code as [[|z]|]; simpl; split; intro H; try discriminate.
  - apply Z.eqb_eq in H. subst. reflexivity.
  - inversion H. apply Z.eqb_refl.
Qed.

(** What the gate of [get_tradein_value] makes of the client's result for a
    response with status [st] and body [body]. *)
Lemma gate_mapping (st : Z) (body : option HylaResponse) :
  let r := interpret_response st body in
  (gate r = Mismatch <-> code_of body = Some (JS.Num 4009))
  /\ (forall c, code_of body = Some (JS.Num c) -> 4010 <= c ->
                gate r = DeviceIneligible)
  /\ (status_ok st = true ->
      has_code (code_of body) = false \/ code_lt (code_of body) 4000 = true ->
      success r = true /\ gate r = Verified)
  /\ (status_ok st = false -> has_code (code_of body) = false ->
      success r = false /\ gate r = Unverifiable).
Proof.
  cbv zeta.
  destruct (interpret_response_fields st body) as (_ & _ & C & S).
  unfold gate. rewrite C, S. clear C S.
  split; [|split; [|split]].
  - rewrite <- code_is_spec.
    destruct (code_is (code_of body) 4009); [tauto|].
    split; [|discriminate].
    destruct (has_code (code_of body) && code_ge (code_of body) 4010);
      [discriminate|].
    destruct (negb _ && negb _); discriminate.
  - intros c -> G. cbn.
    destruct (c =? 4009) eqn:E; [apply Z.eqb_eq in E; lia|].
    assert ((c =? 0) = false) as -> by (apply Z.eqb_neq; lia).
    assert ((c >=? 4010) = true) as -> by (apply Z.geb_le; lia).
    reflexivity.
  - intros -> H.
    destruct (code_of body) as [[|c]|]; cbn in *.
    + split; reflexivity.
    + destruct (c =? 0) eqn:Z0; cbn in *.
      * apply Z.eqb_eq in Z0. subst. split; reflexivity.
      * destruct H as [H|H]; [discriminate|]. rewrite H.
        apply Z.ltb_lt in H.
        assert ((c =? 4009) = false) as -> by (apply Z.eqb_neq; lia).
        assert ((c >=? 4010) = false) as ->.
        { rewrite Z.geb_leb. apply Z.leb_gt. lia. }
        split; reflexivity.
    + split; reflexivity.
  - intros -> H. cbn [andb negb]. rewrite H. cbn [andb negb].
    destruct (code_of body) as [[|c]|]; cbn in *; try (split; reflexivity).
    apply negb_false_iff, Z.eqb_eq in H. subst. split; reflexivity.
Qed.

(** C2, the defect: a response whose code lies in 4000..4008 is a failure
    for the client, and the gate of [get_tradein_value] takes it as
    verified; with the code 4001 the handler discloses the amount 800,
    where [validate_imei] shows a device issue and discloses nothing. *)
Theorem unknown_code_passes_gate :
  (forall (st c : Z) (msg : string),
      4000 <= c < 4009 ->
      success (interpret_response st (Some (mkHylaResponse (NumberCode c) msg)))
      = false
      /\ gate (interpret_response st (Some (mkHylaResponse (NumberCode c) msg)))
         = Verified)
  /\ (exists r d,
        run (get_tradein_value
               (fixture_env
                  (HylaHttp 200 (Some (mkHylaResponse (NumberCode 4001)
                                                       EmptyString))))
               (mkGetTradeInValueArgs "Apple" "iPhone 15 Pro Max" fixture_imei
                                      None None))
        = Returns (DiscloseValue r d)
        /\ success r = false
        /\ hylaCode r = Some (JS.Num 4001)
        /\ hyla_display r = ShowDeviceIssue
        /\ condition_value d = 800)
  /\ (exists report,
        run (validate_imei
               (fixture_env
                  (HylaHttp 200 (Some (mkHylaResponse (NumberCode 4001)
                                                       EmptyString))))
               (mkValidateImeiArgs fixture_imei (Some "Apple")
                  (Some "iPhone 15 Pro Max") None None None None None))
        = Returns report
        /\ report_value report = None).
Proof.
  split; [|split].
  - intros st c msg H.
    destruct (interpret_response_fields st
                (Some (mkHylaResponse (NumberCode c) msg))) as (_ & _ & C & S).
    assert ((c =? 0) = false) as E0 by (apply Z.eqb_neq; lia).
    assert ((c <? 4000) = false) as E1 by (apply Z.ltb_ge; lia).
    assert ((c =? 4009) = false) as E2 by (apply Z.eqb_neq; lia).
    assert ((c >=? 4010) = false) as E3.
    { rewrite Z.geb_leb. apply Z.leb_gt. lia. }
    unfold gate. rewrite C, S.
    do 3 (cbn; rewrite ?E0, ?E1, ?E2, ?E3).
    rewrite andb_false_r. split; reflexivity.
  - eexists _, _. split; [vm_compute; reflexivity|]. repeat split.
  - eexists. split; [vm_compute; reflexivity|]. reflexivity.
Qed.

(** ** The disclosed amount *)




Lemma or_else_nonempty (a b : string) :
  JS.nonempty b = true -> JS.nonempty (JS.or_else a b) = true.
Proof. unfold JS.or_else. destruct (JS.nonempty a) eqn:E; auto. Qed.

Lemma opt_or_nonempty (a : option string) (b : string) :
  JS.nonempty b = true -> JS.nonempty (opt_or a b) = true.
Proof. destruct a; cbn; auto using or_else_nonempty. Qed.

Lemma or_else_idem (a b : string) :
  JS.nonempty a = true -> JS.or_else a b = a.
Proof. unfold JS.or_else. intros ->. reflexivity. Qed.

Lemma toLowerCase_nonempty (s : string) :
  JS.nonempty (JS.toLowerCase s) = JS.nonempty s.
Proof. destruct s; reflexivity. Qed.

Lemma includes_empty (s : string) : JS.includes s EmptyString = true.
Proof. destruct s; reflexivity. Qed.

(** A result of the client that carries the code 4009, or a code from
    4010 on, is a failure. *)
Lemma client_result_codes (f : HylaFetch) :
  (code_is (hylaCode (client_result f)) 4009 = true ->
   success (client_result f) = false)
  /\ (forall n, hylaCode (client_result f) = Some n ->
                JS.ge n (JS.Num 4010) = true ->
                success (client_result f) = false
                /\ exists k, n = JS.Num k /\ 4010 <= k).
Proof.
  destruct f as [e|st body]; cbn [client_result].
  - split; [discriminate|]. intros n E. discriminate E.
  - destruct (interpret_response_fields st body) as (_ & _ & C & S).
    rewrite C, S. clear C S. split.
    + intro H. apply code_is_spec in H. rewrite H. cbn.
      apply andb_false_r.
    + intros n -> G. destruct n as [|k]; [discriminate G|].
      cbn in G. apply Z.geb_le in G. split; [|exists k; split; [reflexivity|lia]].
      cbn. assert ((k =? 0) = false) as -> by (apply Z.eqb_neq; lia).
      assert ((k <? 4000) = false) as -> by (apply Z.ltb_ge; lia).
      apply andb_false_r.
Qed.

(** With a catalog endpoint that always serves the document [d], a call
    from a state whose cache is empty or holds [d] returns [d] and leaves
    [d] cached. *)
Lemma fetchTradeInData_stable (env : Env) (d : TradeInApiResponse) (w : World) :
  (forall n, fetched (catalog_fetch_at env n) = Some (Document d)) ->
  tradeInCache w = Null \/ tradeInCache w = Document d ->
  exists w',
    fetchTradeInData env w = (Returns (Document d), w')
    /\ tradeInCache w' = Document d
    /\ hyla_calls w' = hyla_calls w.
Proof.
  intros S C. rewrite fetchTradeInData_run. cbv zeta. rewrite S.
  destruct (cache_fresh w _) eqn:Fr.
  - destruct C as [C|C].
    + unfold cache_fresh in Fr. rewrite C in Fr. discriminate.
    + rewrite C. eexists. split; [reflexivity|]. split; [exact C|reflexivity].
  - eexists. split; [reflexivity|]. split; reflexivity.
Qed.








(** [validate_imei] shows an amount: with a catalog endpoint that serves
    the document [d], a well-formed identifier given with a brand or a
    model and no model code, a model code found in [d], a gateway result
    that is a success, the trade-in check not switched off, and a device
    that [matchImeiToTradeIn] matches in [d] for the names found, the
    report carries the code found, that gateway result, that device, its
    price and the price times the multiplier, rounded. *)
Lemma validate_imei_shows_value (env : Env) (w : World)
  (d : TradeInApiResponse) (phone : TradeInCategory)
  (args : ValidateImeiArgs) (found : Lookup) (r : HylaResult)
  (base : Q) (dev : MatchedDevice) :
  (forall n, fetched (catalog_fetch_at env n) = Some (Document d)) ->
  tradeInCache w = Null \/ tradeInCache w = Document d ->
  phoneCategory d = Some phone ->
  iv_valid (validateImeiFormat (vi_imei args)) = true ->
  JS.nonempty (opt_or (vi_model_code args) EmptyString) = false ->
  JS.nonempty (opt_or (vi_brand args) EmptyString)
  || JS.nonempty (opt_or (vi_model args) EmptyString) = true ->
  lookup_catalog (JS.toLowerCase (opt_or (vi_brand args) EmptyString))
                 (JS.toLowerCase (opt_or (vi_model args) EmptyString))
                 (makes phone)
                 (mkLookup (opt_or (vi_model_code args) EmptyString)
                           (opt_or (vi_brand args) EmptyString)
                           (opt_or (vi_model args) EmptyString)) = found ->
  JS.nonempty (lk_modelCode found) = true ->
  r = client_result
        (hyla_fetch_at env (hyla_calls w)
           (mkHylaQuery (lk_modelCode found)
                        (iv_cleanImei (validateImeiFormat (vi_imei args)))
                        (if_truthy (vi_mtn args))
                        (if_truthy (vi_response_token args)))) ->
  success r = true ->
  vi_check_tradein args <> Some false ->
  matchImeiToTradeIn_with (Document d)
    (mkImeiDeviceInfo
       (Some (JS.or_else (lk_catalogBrand found)
                         (opt_or (vi_brand args) EmptyString)))
       (Some (JS.or_else (lk_catalogModel found)
                         (opt_or (vi_model args) EmptyString)))
       (Some (JS.or_else (lk_catalogModel found)
                         (opt_or (vi_model args) EmptyString)))
       (Some (JS.or_else (lk_catalogBrand found)
                         (opt_or (vi_brand args) EmptyString)))
       None) = Returns (Matched base dev) ->
  exists w',
    validate_imei env args w
    = (Returns
         (ValidImei (iv_cleanImei (validateImeiFormat (vi_imei args)))
            (lk_modelCode found) (Some r)
            (SectionValue dev base
               (conditionValue base (vi_good_condition args)))), w').
Proof.
  intros S C P V NoCode Given L NC Hr Sr Ch M.
  destruct (fetchTradeInData_stable env d w S C) as (w1 & F1 & C1 & H1).
  destruct (fetchTradeInData_stable env d (tick_hyla w1) S (or_intror C1))
    as (w2 & F2 & _ & _).
  exists w2.
  destruct (client_result_codes
              (hyla_fetch_at env (hyla_calls w)
                 (mkHylaQuery (lk_modelCode found)
                    (iv_cleanImei (validateImeiFormat (vi_imei args)))
                    (if_truthy (vi_mtn args))
                    (if_truthy (vi_response_token args))))) as [K1 K2].
  rewrite <- Hr in K1, K2.
  assert (code_is (hylaCode r) 4009 = false) as G1.
  { destruct (code_is (hylaCode r) 4009); [|reflexivity].
    rewrite (K1 eq_refl) in Sr. discriminate. }
  assert (match hylaCode r with
          | Some n => JS.ge n (JS.Num 4010)
          | None => false
          end = false) as G2.
  { destruct (hylaCode r) as [n|] eqn:E; [|reflexivity].
    destruct (JS.ge n (JS.Num 4010)) eqn:Ge; [|reflexivity].
    destruct (K2 n eq_refl Ge) as [F _]. rewrite F in Sr. discriminate. }
  assert (JS.nonempty
            (JS.or_else (lk_catalogBrand found)
                        (opt_or (vi_brand args) EmptyString))
          || JS.nonempty
               (JS.or_else (lk_catalogModel found)
                           (opt_or (vi_model args) EmptyString)) = true) as Id.
  { apply orb_prop in Given as [G|G];
      [rewrite (or_else_nonempty _ _ G); reflexivity
      |rewrite (or_else_nonempty _ _ G); apply orb_true_r]. }
  unfold validate_imei, try_catch, bind, ret, lift.
  rewrite V. cbn [negb lk_modelCode]. rewrite NoCode, Given.
  cbn [negb andb]. cbv beta iota.
  rewrite F1. cbn [phone_entry]. cbv beta iota. rewrite P. cbv beta iota.
  rewrite L, NC. cbv beta iota.
  rewrite callHylaGateway_run, H1. unfold hyla_query.
  cbn [p_modelCode p_imei p_mtn p_responseToken]. rewrite <- Hr.
  cbv beta iota.
  assert ((match vi_check_tradein args with
           | Some false => false
           | _ => true
           end) = true) as ->.
  { destruct (vi_check_tradein args) as [[|]|]; try reflexivity.
    contradiction Ch. reflexivity. }
  rewrite Id. cbn [andb]. rewrite G1, G2, Sr.
  unfold matchImeiToTradeIn, bind, lift. rewrite F2, M. reflexivity.
Qed.



(** ** Strings: containment and joining *)

Lemma string_app_nil_r (a : string) : a ++ EmptyString = a.
Proof.
  induction a as [|x a IH]; simpl; [reflexivity|]. rewrite IH. reflexivity.
Qed.

Lemma string_app_assoc (a b c : string) : (a ++ b) ++ c = a ++ b ++ c.
Proof.
  induction a as [|x a IH]; simpl; [reflexivity|]. rewrite IH. reflexivity.
Qed.

Lemma prefix_app (t b : string) : prefix t (t ++ b) = true.
Proof.
  induction t as [|x t IH]; simpl; [destruct b; reflexivity|].
  destruct (ascii_dec x x); [assumption|congruence].
Qed.

Lemma prefix_split (t s : string) :
  prefix t s = true -> exists b, s = t ++ b.
Proof.
  revert s. induction t as [|x t IH]; intros s H.
  - exists s. reflexivity.
  - destruct s as [|y s]; simpl in H; [discriminate|].
    destruct (ascii_dec x y) as [->|]; [|discriminate].
    destruct (IH s H) as [b ->]. exists b. reflexivity.
Qed.

Lemma includes_unfold (s t : string) :
  JS.includes s t
  = if prefix t s then true
    else match s with
         | EmptyString => false
         | String _ r => JS.includes r t
         end.
Proof. destruct s; reflexivity. Qed.

(** [s.includes(t)] holds exactly when [t] is a contiguous block of [s]. *)
Lemma includes_spec (s t : string) :
  JS.includes s t = true <-> exists a b, s = a ++ t ++ b.
Proof.
  split.
  - induction s as [|x s IH]; rewrite includes_unfold; intro H.
    + destruct (prefix t EmptyString) eqn:P; [|discriminate].
      destruct (prefix_split _ _ P) as [b E]. exists EmptyString, b. exact E.
    + destruct (prefix t (String x s)) eqn:P.
      * destruct (prefix_split _ _ P) as [b E]. exists EmptyString, b. exact E.
      * destruct (IH H) as (a & b & ->). exists (String x a), b. reflexivity.
  - intros (a & b & ->). induction a as [|x a IH].
    + rewrite includes_unfold. simpl. rewrite prefix_app. reflexivity.
    + rewrite includes_unfold.
      destruct (prefix t (String x a ++ t ++ b)); [reflexivity|].
      exact IH.
Qed.

Lemma includes_middle (a s b t : string) :
  JS.includes s t = true -> JS.includes (a ++ s ++ b) t = true.
Proof.
  intro H. apply includes_spec in H as (u & v & ->).
  apply includes_spec. exists (a ++ u), (v ++ b).
  rewrite !string_app_assoc. reflexivity.
Qed.

Lemma includes_refl (s : string) : JS.includes s s = true.
Proof.
  apply includes_spec. exists EmptyString, EmptyString.
  simpl. induction s as [|x s IH]; simpl; [reflexivity|].
  rewrite <- IH. reflexivity.
Qed.

(** Every element of a joined list occurs in the result. *)
Lemma join_includes (sep x : string) (xs : list string) :
  In x xs -> JS.includes (JS.join sep xs) x = true.
Proof.
  unfold JS.join. induction xs as [|h t IH]; intro H; [destruct H|].
  destruct H as [->|H].
  - destruct t as [|h' t]; cbn [concat].
    + apply includes_refl.
    + apply (includes_middle EmptyString x). apply includes_refl.
  - destruct t as [|h' t]; [destruct H|].
    cbn [concat]. cbn [concat] in IH.
    apply includes_spec in IH as (a & b & E); [|assumption].
    apply includes_spec. exists (h ++ sep ++ a), b.
    rewrite E, !string_app_assoc. reflexivity.
Qed.



(** ** The brand and model matches *)


(** The code that the lookup of [get_tradein_value] finds comes from the
    first make, in the order of the catalog, whose name contains the brand
    and that has a model with a variant whose name contains the model and
    whose first code is not empty. *)
Lemma lookup_modelCode_first (brandLower modelLower : string)
  (ms : list TradeInMake) :
  JS.nonempty (lookup_modelCode brandLower modelLower ms) = true ->
  exists before make after mdl,
    ms = (before ++ make :: after)%list
    /\ lookup_modelCode brandLower modelLower before = EmptyString
    /\ JS.includes (JS.toLowerCase (make_name make)) brandLower = true
    /\ In mdl (models make)
    /\ JS.includes (JS.toLowerCase (model_name mdl)) modelLower = true
    /\ first_modelCode mdl = lookup_modelCode brandLower modelLower ms.
Proof.
  induction ms as [|make rest IH]; cbn [lookup_modelCode]; [discriminate|].
  destruct (JS.includes (JS.toLowerCase (make_name make)) brandLower) eqn:B;
    cbn [negb].
  - destruct (find _ (models make)) as [mdl|] eqn:F.
    + destruct (JS.nonempty (first_modelCode mdl)) eqn:N.
      * intros _. exists [], make, rest, mdl.
        destruct (find_some _ _ F) as [I T].
        apply andb_prop in T as [T _]. repeat split; assumption.
      * intro H. destruct (IH H) as (before & mk & after & m' & -> & L & R).
        exists (make :: before), mk, after, m'.
        split; [reflexivity|]. split; [|exact R].
        cbn [lookup_modelCode]. rewrite B, F, N. cbn [negb]. exact L.
    + cbn [JS.nonempty]. intro H.
      destruct (IH H) as (before & mk & after & m' & -> & L & R).
      exists (make :: before), mk, after, m'.
      split; [reflexivity|]. split; [|exact R].
      cbn [lookup_modelCode]. rewrite B, F. cbn [negb JS.nonempty]. exact L.
  - intro H. destruct (IH H) as (before & mk & after & m' & -> & L & R).
    exists (make :: before), mk, after, m'.
    split; [reflexivity|]. split; [|exact R].
    cbn [lookup_modelCode]. rewrite B. cbn [negb]. exact L.
Qed.



(** ** The answers of the resolver on a miss *)

(** C8, the claim as stated fails: on a model miss for a brand with eleven
    models the result names the first ten; the eleventh, Kilo, is a valid
    model of the brand and is not in the message. *)
Lemma model_miss_list_truncated :
  In "Kilo" (map model_name eleven_models)
  /\ run (getTradeInValue eleven_env (mkTradeInArgs "Acme" "Zulu" None None))
     = Returns
         (not_found
            ("Model " ++ JS.dquote ++ "Zulu" ++ JS.dquote
             ++ " not found for Acme. Available models: Alpha, Bravo, Charlie, "
             ++ "Delta, Echo, Foxtrot, Golf, Hotel, India, Juliett..."))
  /\ JS.includes
       ("Model " ++ JS.dquote ++ "Zulu" ++ JS.dquote
        ++ " not found for Acme. Available models: Alpha, Bravo, Charlie, "
        ++ "Delta, Echo, Foxtrot, Golf, Hotel, India, Juliett...")
       "Kilo" = false.
Proof.
  split; [|split]; [|reflexivity|reflexivity].
  simpl. do 10 right. left. reflexivity.
Qed.

(** C8, amended: when the catalog is there and the brand or the model
    fails to match, [getTradeInValue] resolves, without an exception, to a
    result that is no success, has no device, and whose message names the
    alternatives: every brand of the catalog on a brand miss, and the first
    ten models of the matched brand on a model miss (so all of them when
    the brand has at most ten). *)
Theorem resolver_miss_lists_alternatives (env : Env) (args : TradeInArgs)
  (w : World) :
  forall cat phone w',
    fetchTradeInData env w = (Returns (Document cat), w') ->
    phoneCategory cat = Some phone ->
    (find (fun m => same_brand (make_name m) (arg_brand args)) (makes phone)
     = None ->
     exists msg,
       getTradeInValue env args w
       = (Returns (mkTradeInValueResult false None msg), w')
       /\ msg = "Brand " ++ JS.dquote ++ arg_brand args ++ JS.dquote
                ++ " not found. Available brands: "
                ++ JS.join ", " (map make_name (makes phone))
       /\ forall m, In m (makes phone) ->
                    JS.includes msg (make_name m) = true)
    /\ (forall make,
          find (fun m => same_brand (make_name m) (arg_brand args)) (makes phone)
          = Some make ->
          find (fun m => fuzzy_match (model_name m) (arg_model args))
               (models make) = None ->
          exists msg,
            getTradeInValue env args w
            = (Returns (mkTradeInValueResult false None msg), w')
            /\ msg = "Model " ++ JS.dquote ++ arg_model args ++ JS.dquote
                     ++ " not found for " ++ arg_brand args
                     ++ ". Available models: "
                     ++ JS.join ", " (map model_name (firstn 10 (models make)))
                     ++ "..."
            /\ (forall m, In m (firstn 10 (models make)) ->
                          JS.includes msg (model_name m) = true)
            /\ ((List.length (models make) <= 10)%nat ->
                forall m, In m (models make) ->
                          JS.includes msg (model_name m) = true)).
Proof.
  intros cat phone w' F P.
  assert (forall pre x post l,
             In x l ->
             JS.includes (pre ++ JS.join ", " l ++ post) x = true) as J.
  { intros pre x post l I. apply includes_middle.
    apply join_includes. assumption. }
  split.
  - intro B. eexists. split; [|split; [reflexivity|]].
    + unfold getTradeInValue, bind, lift. rewrite F.
      unfold getTradeInValue_with. rewrite P, B. reflexivity.
    + intros m I.
      rewrite <- (string_app_assoc "Brand " JS.dquote).
      rewrite <- (string_app_assoc _ (arg_brand args)).
      rewrite <- (string_app_assoc _ JS.dquote).
      rewrite <- (string_app_assoc _ " not found. Available brands: ").
      rewrite <- (string_app_nil_r (JS.join ", " (map make_name (makes phone)))).
      apply J. apply in_map. assumption.
  - intros make B Mo. eexists. split; [|split; [reflexivity|]].
    + unfold getTradeInValue, bind, lift. rewrite F.
      unfold getTradeInValue_with. rewrite P, B, Mo. reflexivity.
    + assert (forall m, In m (firstn 10 (models make)) ->
                        JS.includes
                          ("Model " ++ JS.dquote ++ arg_model args ++ JS.dquote
                           ++ " not found for " ++ arg_brand args
                           ++ ". Available models: "
                           ++ JS.join ", "
                                (map model_name (firstn 10 (models make)))
                           ++ "...") (model_name m) = true) as K.
      { intros m I.
        rewrite <- (string_app_assoc "Model " JS.dquote).
        rewrite <- (string_app_assoc _ (arg_model args)).
        rewrite <- (string_app_assoc _ JS.dquote).
        rewrite <- (string_app_assoc _ " not found for ").
        rewrite <- (string_app_assoc _ (arg_brand args)).
        rewrite <- (string_app_assoc _ ". Available models: ").
        apply J. apply in_map. assumption. }
      split; [exact K|].
      intros L m I. apply K. rewrite firstn_all2; assumption.
Qed.

Lemma resolver_miss_lists_alternatives_witness :
  exists msg,
    getTradeInValue (fixture_env (HylaHttp 200 None))
      (mkTradeInArgs "Samsung" "Galaxy S24" None None) initial_world
    = (Returns (mkTradeInValueResult false None msg),
       mkWorld (Document fixture_catalog) 0 1 1 0)
    /\ JS.includes msg "Apple" = true.
Proof.
  destruct (proj1 (resolver_miss_lists_alternatives
                     (fixture_env (HylaHttp 200 None))
                     (mkTradeInArgs "Samsung" "Galaxy S24" None None)
                     initial_world fixture_catalog fixture_phone
                     (mkWorld (Document fixture_catalog) 0 1 1 0)
                     eq_refl eq_refl) eq_refl) as (msg & E & _ & I).
  exists msg. split; [exact E|].
  apply (I fixture_make). left. reflexivity.
Defined.

(** * Further properties *)

(** ** The checksum: what it accepts and what it detects *)

Lemma luhn_loop_NaN (s : string) (i : nat) : luhn_loop s i JS.NaN = JS.NaN.
Proof.
  revert i. induction s as [|c r IH]; intro i; [reflexivity|].
  cbn [luhn_loop]. cbn [JS.add JS.lift2]. apply IH.
Qed.

Lemma luhn_loop_number (s : string) (i : nat) (acc : JS.jsnum) (n : Z) :
  luhn_loop s i acc = JS.Num n -> JS.all_chars JS.is_digit s = true.
Proof.
  revert i acc. induction s as [|c r IH]; intros i acc H; [reflexivity|].
  cbn [luhn_loop] in H. cbn [JS.all_chars].
  unfold JS.parseInt_char in H.
  destruct (JS.is_digit c); [exact (IH _ _ H)|].
  destruct ((i mod 2 =? 1)%nat); cbn in H;
    (replace (JS.add acc JS.NaN) with JS.NaN in H by (destruct acc; reflexivity));
    rewrite luhn_loop_NaN in H; discriminate.
Qed.

(** X1: [luhnCheck] accepts only strings of digits: a character that is no
    digit turns the running sum into [NaN], and the test on [NaN] fails. *)
Theorem luhnCheck_accepts_digits_only (s : string) :
  luhnCheck s = true -> JS.all_chars JS.is_digit s = true.
Proof.
  unfold luhnCheck. intro H.
  destruct (luhn_loop s 0 (JS.Num 0)) as [|n] eqn:E; [discriminate|].
  exact (luhn_loop_number _ _ _ _ E).
Qed.

Lemma luhnCheck_accepts_digits_only_witness :
  JS.all_chars JS.is_digit "490154203237518" = true.
Proof. apply luhnCheck_accepts_digits_only. reflexivity. Defined.

Lemma transform_injective (p : nat) (d d' : Z) :
  0 <= d <= 9 -> 0 <= d' <= 9 ->
  ChecksumSpec.transform p d = ChecksumSpec.transform p d' -> d = d'.
Proof.
  unfold ChecksumSpec.transform. intros Hd Hd'.
  destruct (Nat.odd p); [|trivial].
  destruct (9 <? 2 * d) eqn:A; destruct (9 <? 2 * d') eqn:B; lia.
Qed.

Lemma transformed_sum_replace (s : string) (i k : nat) (c c' : ascii) :
  get i s = Some c ->
  ChecksumSpec.transformed_sum k (ChecksumSpec.digit_values (replace_at i c' s))
  = ChecksumSpec.transformed_sum k (ChecksumSpec.digit_values s)
    - ChecksumSpec.transform (k + i) (Z.of_N (JS.code c) - 48)
    + ChecksumSpec.transform (k + i) (Z.of_N (JS.code c') - 48).
Proof.
  revert i k. induction s as [|x r IH]; intros i k H; [discriminate|].
  destruct i as [|j]; cbn [get] in H.
  - inversion H; subst. cbn. rewrite Nat.add_0_r. lia.
  - cbn [replace_at ChecksumSpec.digit_values ChecksumSpec.transformed_sum].
    rewrite (IH j (S k) H).
    replace (S k + j)%nat with (k + S j)%nat by lia. lia.
Qed.

Lemma replace_at_digits (s : string) (i : nat) (c : ascii) :
  JS.all_chars JS.is_digit s = true -> JS.is_digit c = true ->
  JS.all_chars JS.is_digit (replace_at i c s) = true.
Proof.
  revert i. induction s as [|x r IH]; intros i H C; [reflexivity|].
  cbn [JS.all_chars] in H. apply andb_prop in H as [Hx Hr].
  destruct i as [|j]; cbn [replace_at JS.all_chars].
  - rewrite C, Hr. reflexivity.
  - rewrite Hx, (IH j Hr C). reflexivity.
Qed.

Lemma get_digit (s : string) (i : nat) (c : ascii) :
  JS.all_chars JS.is_digit s = true -> get i s = Some c ->
  JS.is_digit c = true.
Proof.
  revert i. induction s as [|x r IH]; intros i H G; [discriminate|].
  cbn [JS.all_chars] in H. apply andb_prop in H as [Hx Hr].
  destruct i as [|j]; cbn [get] in G.
  - inversion G; subst. assumption.
  - exact (IH j Hr G).
Qed.

Lemma digit_of_value (c c' : ascii) :
  Z.of_N (JS.code c) - 48 = Z.of_N (JS.code c') - 48 -> c = c'.
Proof.
  intro H. assert (JS.code c = JS.code c') as E by lia.
  unfold JS.code in E.
  rewrite <- (ascii_N_embedding c), <- (ascii_N_embedding c'), E.
  reflexivity.
Qed.

(** X2: the checksum detects every single wrong digit: in a string of
    digits that passes [luhnCheck], replacing the digit at any one position
    by another digit gives a string that fails it. *)
Theorem luhnCheck_detects_one_wrong_digit (s : string) (i : nat)
  (c c' : ascii) :
  JS.all_chars JS.is_digit s = true ->
  get i s = Some c ->
  JS.is_digit c' = true ->
  c' <> c ->
  luhnCheck s = true ->
  luhnCheck (replace_at i c' s) = false.
Proof.
  intros D G D' N V.
  pose proof (get_digit _ _ _ D G) as Dc.
  rewrite luhnCheck_digits in V by assumption.
  rewrite luhnCheck_digits by (apply replace_at_digits; assumption).
  unfold ChecksumSpec.valid in *.
  rewrite (transformed_sum_replace s i 0 c c' G).
  apply Z.eqb_eq in V. apply Z.eqb_neq. intro W.
  pose proof (transform_bounds (0 + i) _ (is_digit_value c Dc)) as B.
  pose proof (transform_bounds (0 + i) _ (is_digit_value c' D')) as B'.
  assert (ChecksumSpec.transform (0 + i) (Z.of_N (JS.code c') - 48)
          = ChecksumSpec.transform (0 + i) (Z.of_N (JS.code c) - 48)) as E.
  { apply Z.mod_divide in V; [|lia]. apply Z.mod_divide in W; [|lia].
    destruct V as [a Ha]. destruct W as [b Hb]. lia. }
  apply N. apply digit_of_value.
  apply (transform_injective (0 + i));
    [apply is_digit_value; assumption|apply is_digit_value; assumption|exact E].
Qed.

Lemma luhnCheck_detects_one_wrong_digit_witness :
  luhnCheck (replace_at 14 "9" "490154203237518") = false
  /\ luhnCheck (replace_at 3 "7" "490154203237518") = false.
Proof.
  split.
  - apply (luhnCheck_detects_one_wrong_digit "490154203237518" 14 "8" "9");
      try reflexivity. discriminate.
  - apply (luhnCheck_detects_one_wrong_digit "490154203237518" 3 "1" "7");
      try reflexivity. discriminate.
Defined.

Lemma transformed_sum_app (a b : string) (k : nat) :
  ChecksumSpec.transformed_sum k (ChecksumSpec.digit_values (a ++ b))
  = ChecksumSpec.transformed_sum k (ChecksumSpec.digit_values a)
    + ChecksumSpec.transformed_sum (k + String.length a)
        (ChecksumSpec.digit_values b).
Proof.
  revert k. induction a as [|x a IH]; intro k.
  - cbn. rewrite Nat.add_0_r. reflexivity.
  - cbn [append ChecksumSpec.digit_values ChecksumSpec.transformed_sum
         String.length].
    rewrite IH. replace (S k + String.length a)%nat
      with (k + S (String.length a))%nat by lia. lia.
Qed.

Lemma all_chars_app (p : ascii -> bool) (a b : string) :
  JS.all_chars p (a ++ b) = JS.all_chars p a && JS.all_chars p b.
Proof.
  induction a as [|x a IH]; [reflexivity|].
  cbn [append JS.all_chars]. rewrite IH. apply andb_assoc.
Qed.

Lemma string_length_app (a b : string) :
  String.length (a ++ b) = (String.length a + String.length b)%nat.
Proof.
  induction a as [|x a IH]; [reflexivity|].
  cbn [append String.length]. rewrite IH. reflexivity.
Qed.

Lemma digit_not_separator (c : ascii) :
  JS.is_digit c = true -> is_separator c = false.
Proof.
  unfold JS.is_digit, is_separator, JS.is_space. intro H.
  apply andb_prop in H as [L U]. apply N.leb_le in L, U.
  repeat (apply orb_false_intro);
    try (apply N.eqb_neq; lia);
    try (apply andb_false_intro1; apply N.leb_gt; lia).
  apply andb_false_intro2. apply N.leb_gt. lia.
Qed.

Lemma digits_are_clean (s : string) :
  JS.all_chars JS.is_digit s = true -> JS.remove_chars is_separator s = s.
Proof.
  induction s as [|c r IH]; [reflexivity|].
  cbn [JS.all_chars JS.remove_chars]. intro H.
  apply andb_prop in H as [Hc Hr].
  rewrite (digit_not_separator c Hc), (IH Hr). reflexivity.
Qed.

(** A string of 15 digits is valid exactly when it passes the checksum. *)
Lemma validateImeiFormat_digits (s : string) :
  String.length s = 15%nat -> JS.all_chars JS.is_digit s = true ->
  iv_valid (validateImeiFormat s) = luhnCheck s.
Proof.
  intros L D. unfold validateImeiFormat.
  rewrite (digits_are_clean s D). unfold fifteen_digits.
  rewrite L, D. cbn. destruct (luhnCheck s); reflexivity.
Qed.

(** X3: every 14 digits have exactly one check digit: among the ten
    strings that extend them by a digit, [validateImeiFormat] accepts one
    and only one. *)
Theorem exactly_one_check_digit (p : string) :
  String.length p = 14%nat ->
  JS.all_chars JS.is_digit p = true ->
  exists c,
    JS.is_digit c = true
    /\ iv_valid (validateImeiFormat (p ++ String c EmptyString)) = true
    /\ forall c',
        JS.is_digit c' = true ->
        iv_valid (validateImeiFormat (p ++ String c' EmptyString)) = true ->
        c' = c.
Proof.
  intros L D.
  set (total := ChecksumSpec.transformed_sum 0 (ChecksumSpec.digit_values p)).
  assert (forall c, JS.is_digit c = true ->
                    iv_valid (validateImeiFormat (p ++ String c EmptyString))
                    = ((total + (Z.of_N (JS.code c) - 48)) mod 10 =? 0)) as V.
  { intros c C.
    rewrite validateImeiFormat_digits.
    - rewrite luhnCheck_digits.
      + unfold ChecksumSpec.valid. rewrite transformed_sum_app. rewrite L.
        cbn. fold total. f_equal. f_equal. lia.
      + rewrite all_chars_app, D. cbn. rewrite C. reflexivity.
    - rewrite string_length_app, L. reflexivity.
    - rewrite all_chars_app, D. cbn. rewrite C. reflexivity. }
  set (d := (- total) mod 10).
  assert (0 <= d <= 9) as Bd.
  { pose proof (Z.mod_pos_bound (- total) 10 ltac:(lia)). lia. }
  set (c := ascii_of_N (Z.to_N (48 + d))).
  assert (JS.code c = Z.to_N (48 + d)) as Cc.
  { unfold c, JS.code. apply N_ascii_embedding. lia. }
  assert (JS.is_digit c = true) as Dc.
  { unfold JS.is_digit. rewrite Cc.
    apply andb_true_intro. split; apply N.leb_le; lia. }
  exists c. split; [exact Dc|]. split.
  - rewrite (V c Dc). apply Z.eqb_eq. rewrite Cc.
    replace (Z.of_N (Z.to_N (48 + d)) - 48) with d by lia.
    unfold d. rewrite Zplus_mod_idemp_r.
    replace (total + - total) with 0 by lia. reflexivity.
  - intros c' C' H. rewrite (V c' C') in H. apply Z.eqb_eq in H.
    pose proof (is_digit_value c' C') as B'.
    apply digit_of_value. rewrite Cc.
    replace (Z.of_N (Z.to_N (48 + d)) - 48) with d by lia.
    assert ((total + d) mod 10 = 0) as Hd.
    { unfold d. rewrite Zplus_mod_idemp_r.
      replace (total + - total) with 0 by lia. reflexivity. }
    apply Z.mod_divide in H; [|lia]. apply Z.mod_divide in Hd; [|lia].
    destruct H as [a Ha]. destruct Hd as [b Hb]. lia.
Qed.

Lemma exactly_one_check_digit_witness :
  exists c,
    JS.is_digit c = true
    /\ iv_valid (validateImeiFormat ("49015420323751" ++ String c EmptyString))
       = true
    /\ forall c',
        JS.is_digit c' = true ->
        iv_valid (validateImeiFormat ("49015420323751" ++ String c' EmptyString))
        = true ->
        c' = c.
Proof. apply exactly_one_check_digit; reflexivity. Defined.

(** ** The validator and the way an identifier is written *)

Lemma remove_chars_app (cls : ascii -> bool) (a b : string) :
  JS.remove_chars cls (a ++ b)
  = JS.remove_chars cls a ++ JS.remove_chars cls b.
Proof.
  induction a as [|x a IH]; [reflexivity|].
  cbn [append JS.remove_chars]. rewrite IH.
  destruct (cls x); reflexivity.
Qed.

Lemma remove_chars_all (cls : ascii -> bool) (s : string) :
  JS.all_chars cls s = true -> JS.remove_chars cls s = EmptyString.
Proof.
  induction s as [|x s IH]; [reflexivity|].
  cbn [JS.all_chars JS.remove_chars]. intro H.
  apply andb_prop in H as [Hx Hs]. rewrite Hx. exact (IH Hs).
Qed.

Lemma remove_chars_idempotent (cls : ascii -> bool) (s : string) :
  JS.remove_chars cls (JS.remove_chars cls s) = JS.remove_chars cls s.
Proof.
  induction s as [|x s IH]; [reflexivity|].
  cbn [JS.remove_chars]. destruct (cls x) eqn:E; [exact IH|].
  cbn [JS.remove_chars]. rewrite E, IH. reflexivity.
Qed.

Lemma validateImeiFormat_cleanImei (s : string) :
  iv_cleanImei (validateImeiFormat s) = JS.remove_chars is_separator s.
Proof.
  unfold validateImeiFormat.
  destruct (negb _); [reflexivity|].
  destruct (negb _); [reflexivity|].
  destruct (negb _); reflexivity.
Qed.

(** X4: the result of [validateImeiFormat] does not depend on how the
    identifier is written: separators (white space, hyphens, parentheses,
    periods) put anywhere in the input change nothing, and validating the
    cleaned identifier again gives the same record. *)
Theorem validateImeiFormat_ignores_formatting (s a sep b : string) :
  validateImeiFormat (iv_cleanImei (validateImeiFormat s))
  = validateImeiFormat s
  /\ (JS.all_chars is_separator sep = true ->
      validateImeiFormat (a ++ sep ++ b) = validateImeiFormat (a ++ b)).
Proof.
  split.
  - rewrite validateImeiFormat_cleanImei. unfold validateImeiFormat.
    rewrite remove_chars_idempotent. reflexivity.
  - intro H. unfold validateImeiFormat.
    rewrite !remove_chars_app, (remove_chars_all _ _ H). reflexivity.
Qed.

Lemma validateImeiFormat_ignores_formatting_witness :
  validateImeiFormat ("49-0154" ++ " (.) " ++ "203237518")
  = validateImeiFormat ("49-0154" ++ "203237518").
Proof.
  apply (proj2 (validateImeiFormat_ignores_formatting
                  EmptyString "49-0154" " (.) " "203237518")).
  reflexivity.
Defined.

(** ** The catalog cache over several calls *)

Lemma fetchTradeInData_result_is_cached (env : Env) (w : World) :
  exists r w',
    fetchTradeInData env w = (Returns r, w')
    /\ r = tradeInCache w'
    /\ (tradeInCache w' = tradeInCache w
        \/ (cache_fresh w (now_at env (clock_reads w)) = false
            /\ fetched (catalog_fetch_at env (catalog_calls w))
               = Some (tradeInCache w')))
    /\ (fetched (catalog_fetch_at env (catalog_calls w)) = None ->
        tradeInCache w' = tradeInCache w)
    /\ (cache_fresh w (now_at env (clock_reads w)) = true ->
        tradeInCache w' = tradeInCache w)
    /\ clock_reads w' = S (clock_reads w)
    /\ hyla_calls w' = hyla_calls w
    /\ (catalog_calls w' = catalog_calls w
        \/ catalog_calls w' = S (catalog_calls w)).
Proof.
  rewrite fetchTradeInData_run. cbv zeta.
  destruct (cache_fresh w _) eqn:Fr.
  - eexists _, _. split; [reflexivity|]. cbn. auto 10.
  - destruct (fetched _) as [data|] eqn:F.
    + eexists _, _. split; [reflexivity|]. cbn.
      repeat split; auto; discriminate.
    + eexists _, _. split; [reflexivity|]. cbn.
      repeat split; auto; discriminate.
Qed.

(** X5: [fetchTradeInData] always resolves, to the value that is cached
    when it returns. A call leaves the cached value as it was unless the
    snapshot is absent or stale and the endpoint answers with a success
    status and a JSON body, which is then cached as it is, unchecked. So a
    failed fetch never loses a snapshot; a snapshot is lost only to a
    success response whose body is a falsy value such as [null], and then
    it is lost: the call resolves to that value. When the endpoint never
    gives such a body, no call in any sequence of calls from a state with a
    snapshot resolves to a falsy value, whatever the clock does. *)
Theorem cached_snapshot_survives_failures (env : Env) (n : nat) (w : World) :
  (exists r w',
      fetchTradeInData env w = (Returns r, w')
      /\ r = tradeInCache w'
      /\ (tradeInCache w' = tradeInCache w
          \/ (cache_fresh w (now_at env (clock_reads w)) = false
              /\ fetched (catalog_fetch_at env (catalog_calls w))
                 = Some (tradeInCache w')))
      /\ (fetched (catalog_fetch_at env (catalog_calls w)) = None ->
          tradeInCache w' = tradeInCache w)
      /\ (tradeInCache w <> Null -> tradeInCache w' = Null ->
          cache_fresh w (now_at env (clock_reads w)) = false
          /\ fetched (catalog_fetch_at env (catalog_calls w)) = Some Null)
      /\ (cache_fresh w (now_at env (clock_reads w)) = false ->
          fetched (catalog_fetch_at env (catalog_calls w)) = Some Null ->
          r = Null))
  /\ (tradeInCache w <> Null ->
      (forall k, fetched (catalog_fetch_at env k) <> Some Null) ->
      exists rs w',
        fetch_times env n w = (Returns rs, w')
        /\ List.length rs = n
        /\ (forall r, In r rs -> r <> Null)
        /\ tradeInCache w' <> Null).
Proof.
  split.
  - destruct (fetchTradeInData_result_is_cached env w)
      as (r & w' & E & C & U & F & _).
    exists r, w'. do 4 (split; [assumption|]). split.
    + intros H N. destruct U as [U|[St B]]; [congruence|].
      split; [assumption|]. rewrite B, N. reflexivity.
    + intros St B. destruct U as [U|[_ B']].
      * pose proof E as E'. rewrite fetchTradeInData_run in E'. cbv zeta in E'.
        rewrite St, B in E'. inversion E'. reflexivity.
      * rewrite B in B'. inversion B'. congruence.
  - intros H B. revert w H. induction n as [|n IH]; intros w H.
    + exists [], w. repeat split; [|assumption]. intros r [].
    + destruct (fetchTradeInData_result_is_cached env w)
        as (r & w1 & E & C & U & _).
      assert (tradeInCache w1 <> Null) as N.
      { destruct U as [U|[_ U]]; [congruence|].
        intro K. rewrite K in U. exact (B _ U). }
      destruct (IH w1 N) as (rs & w' & Es & L & A & K).
      exists (r :: rs), w'. cbn [fetch_times]. unfold bind at 1. rewrite E.
      unfold bind at 1. rewrite Es. unfold ret.
      split; [reflexivity|]. split; [cbn; congruence|].
      split; [|assumption].
      intros x [<-|I]; [congruence|apply A; assumption].
Qed.

(** Three calls twenty minutes apart against an endpoint that answers 503
    keep the snapshot; one call against an endpoint that answers 200 with
    the body [null] loses it. *)
Lemma cached_snapshot_survives_failures_witness :
  (exists rs w',
      fetch_times (mkEnv (fun n => Z.of_nat n * 1200000)
                         (fun _ => CatalogResponse 503 None)
                         (fun _ _ => HylaNetworkError "ENOTFOUND"))
                  3 (mkWorld (Document fixture_catalog) 0 0 0 0)
      = (Returns rs, w')
      /\ List.length rs = 3%nat
      /\ (forall r, In r rs -> r <> Null)
      /\ tradeInCache w' <> Null)
  /\ (exists w',
        fetchTradeInData
          (mkEnv (fun n => 1200000)
                 (fun _ => CatalogResponse 200 (Some Null))
                 (fun _ _ => HylaNetworkError "ENOTFOUND"))
          (mkWorld (Document fixture_catalog) 0 0 0 0)
        = (Returns Null, w')
        /\ tradeInCache w' = Null).
Proof.
  split.
  - apply (proj2 (cached_snapshot_survives_failures _ 3
                    (mkWorld (Document fixture_catalog) 0 0 0 0))).
    + discriminate.
    + intros k. discriminate.
  - destruct (proj1 (cached_snapshot_survives_failures
                       (mkEnv (fun n => 1200000)
                              (fun _ => CatalogResponse 200 (Some Null))
                              (fun _ _ => HylaNetworkError "ENOTFOUND"))
                       0 (mkWorld (Document fixture_catalog) 0 0 0 0)))
      as (r & w' & E & C & _ & _ & _ & L).
    rewrite (L eq_refl eq_refl) in E, C.
    exists w'. split; [exact E|]. symmetry. exact C.
Defined.

Lemma fresh_calls (env : Env) (n : nat) (w : World)
  (snapshot : CatalogValue) :
  tradeInCache w = snapshot ->
  snapshot <> Null ->
  (forall k, (k < n)%nat ->
             now_at env (clock_reads w + k) - tradeInCacheTime w
             < TRADEIN_CACHE_TTL) ->
  exists w',
    fetch_times env n w = (Returns (repeat snapshot n), w')
    /\ catalog_calls w' = catalog_calls w
    /\ tradeInCache w' = snapshot.
Proof.
  revert w. induction n as [|n IH]; intros w C T F.
  - exists w. repeat split. assumption.
  - assert (fetchTradeInData env w = (Returns snapshot, tick w)) as E.
    { rewrite fetchTradeInData_run. cbv zeta. unfold cache_fresh. rewrite C.
      specialize (F 0%nat ltac:(lia)). rewrite Nat.add_0_r in F.
      apply Z.ltb_lt in F. rewrite F.
      destruct snapshot; [contradiction T; reflexivity| |]; reflexivity. }
    destruct (IH (tick w)) as (w' & Es & K & C'); [exact C|exact T| |].
    { intros k Hk. cbn [tick clock_reads tradeInCacheTime].
      replace (S (clock_reads w) + k)%nat with (clock_reads w + S k)%nat by lia.
      apply F. lia. }
    exists w'. cbn [fetch_times]. unfold bind at 1. rewrite E.
    unfold bind at 1. rewrite Es. unfold ret.
    repeat split; assumption.
Qed.

(** X6: one successful refresh serves the calls of the next 15 minutes:
    when a call refreshes the snapshot with a value that is not falsy, the
    following calls whose reading of the clock is less than the window
    after that call's reading all resolve to the fetched value, and the
    catalog endpoint is called once in all. *)
Theorem one_refresh_serves_the_window (env : Env) (n : nat) (w : World)
  (data : CatalogValue) :
  cache_fresh w (now_at env (clock_reads w)) = false ->
  fetched (catalog_fetch_at env (catalog_calls w)) = Some data ->
  data <> Null ->
  (forall k, (1 <= k <= n)%nat ->
             now_at env (clock_reads w + k) - now_at env (clock_reads w)
             < TRADEIN_CACHE_TTL) ->
  exists w',
    fetch_times env (S n) w = (Returns (repeat data (S n)), w')
    /\ catalog_calls w' = S (catalog_calls w)
    /\ tradeInCache w' = data.
Proof.
  intros stale ok truthy window.
  set (w1 := mkWorld data (now_at env (clock_reads w))
                     (S (clock_reads w)) (S (catalog_calls w)) (hyla_calls w)).
  assert (fetchTradeInData env w = (Returns data, w1)) as E.
  { rewrite fetchTradeInData_run. cbv zeta. rewrite stale, ok. reflexivity. }
  destruct (fresh_calls env n w1 data eq_refl truthy) as (w' & Es & K & C).
  { intros k Hk. cbn [w1 clock_reads tradeInCacheTime].
    replace (S (clock_reads w) + k)%nat with (clock_reads w + S k)%nat by lia.
    apply window. lia. }
  exists w'. cbn [fetch_times]. unfold bind at 1. rewrite E.
  unfold bind at 1. rewrite Es. unfold ret.
  repeat split; assumption.
Qed.

(** The clock advances by one millisecond at each reading; the first call
    fetches, the next five do not. *)
Lemma one_refresh_serves_the_window_witness :
  exists w',
    fetch_times (fixture_env (HylaHttp 200 None)) 6 initial_world
    = (Returns (repeat (Document fixture_catalog) 6), w')
    /\ catalog_calls w' = 1%nat
    /\ tradeInCache w' = Document fixture_catalog.
Proof.
  apply (one_refresh_serves_the_window
           (mkEnv (fun n => Z.of_nat n)
                  (fun _ => CatalogResponse 200 (Some (Document fixture_catalog)))
                  (fun _ _ => HylaHttp 200 None))
           5 initial_world (Document fixture_catalog)).
  - reflexivity.
  - reflexivity.
  - discriminate.
  - intros k Hk. cbn. unfold TRADEIN_CACHE_TTL. lia.
Defined.

(** ** The results of the gateway client *)

Lemma or_else_left (a b : string) :
  JS.nonempty (JS.or_else a b) = true -> JS.nonempty a = false ->
  JS.or_else a b = b.
Proof. unfold JS.or_else. intros _ ->. reflexivity. Qed.

(** X7: what [callHylaGateway] resolves to. A success comes only from a
    response with a success status whose code, if any, is below 4000; it
    carries the fixed success message, and the gate of [get_tradein_value]
    takes it as verified. Every result has a message that is not empty,
    and a failure that carries a gateway message or a known code repeats
    that text as its message. *)
Theorem client_result_shape (f : HylaFetch) :
  (success (client_result f) = true ->
   exists st body,
     f = HylaHttp st body
     /\ status_ok st = true
     /\ (forall c, hylaCode (client_result f) = Some (JS.Num c) -> c < 4000)
     /\ message (client_result f) = "Hyla verification successful"
     /\ gate (client_result f) = Verified)
  /\ JS.nonempty (message (client_result f)) = true
  /\ (success (client_result f) = false ->
      JS.nonempty (hylaMessage (client_result f)) = true ->
      message (client_result f) = hylaMessage (client_result f)).
Proof.
  destruct f as [e|st body]; cbn [client_result].
  - split; [discriminate|]. split; [reflexivity|]. discriminate.
  - destruct (gate_mapping st body) as (_ & _ & V & _). cbv zeta in V.
    destruct (interpret_response_fields st body) as (_ & _ & C & S).
    unfold interpret_response in *.
    destruct (status_ok st && _) eqn:OK; cbn [success message hylaMessage] in *.
    + split; [|split; [reflexivity|discriminate]].
      intros _. exists st, body. split; [reflexivity|].
      apply andb_prop in OK as [O K]. split; [assumption|].
      split; [|split; [reflexivity|]].
      * intros c E. cbn [hylaCode] in E. rewrite E in K. cbn in K.
        destruct (c =? 0) eqn:Z0; cbn in K.
        -- apply Z.eqb_eq in Z0. lia.
        -- apply Z.ltb_lt in K. assumption.
      * apply V; [assumption|].
        apply orb_prop in K as [K|K]; [left|right; assumption].
        apply negb_true_iff. assumption.
    + split; [discriminate|]. split.
      * apply or_else_nonempty, opt_or_nonempty. reflexivity.
      * intros _ N. unfold JS.or_else in *.
        destruct (JS.nonempty
                    match body with
                    | Some d => body_message d
                    | None => EmptyString
                    end); [reflexivity|].
        destruct (match code_of body with
                  | Some n => if JS.truthy n then HYLA_ERROR_CODES n else None
                  | None => None
                  end) as [k|]; cbn [opt_or] in *; [|discriminate].
        unfold JS.or_else in *.
        destruct (JS.nonempty k); [reflexivity|discriminate].
Qed.

(** ** The outbound calls of the handlers *)

(** What a call of [fetchTradeInData] does to the counters, whatever its
    outcome. *)
Lemma fetchTradeInData_counts (env : Env) (w w' : World)
  (o : outcome CatalogValue) :
  fetchTradeInData env w = (o, w') ->
  hyla_calls w' = hyla_calls w
  /\ (catalog_calls w <= catalog_calls w' <= S (catalog_calls w))%nat
  /\ clock_reads w' = S (clock_reads w).
Proof.
  rewrite fetchTradeInData_run. cbv zeta.
  destruct (cache_fresh w _); [|destruct (fetched _)];
    intro H; inversion H; cbn; lia.
Qed.

Lemma getTradeInValue_counts (env : Env) (args : TradeInArgs) (w w' : World)
  (o : outcome TradeInValueResult) :
  getTradeInValue env args w = (o, w') ->
  hyla_calls w' = hyla_calls w
  /\ (catalog_calls w <= catalog_calls w' <= S (catalog_calls w))%nat
  /\ clock_reads w' = S (clock_reads w).
Proof.
  unfold getTradeInValue, bind, lift. intro H.
  destruct (fetchTradeInData env w) as [[d|e] w1] eqn:F;
    inversion H; subst; eapply fetchTradeInData_counts; eassumption.
Qed.

Lemma matchImeiToTradeIn_counts (env : Env) (info : ImeiDeviceInfo)
  (w w' : World) (o : outcome ImeiMatch) :
  matchImeiToTradeIn env info w = (o, w') ->
  hyla_calls w' = hyla_calls w
  /\ (catalog_calls w <= catalog_calls w' <= S (catalog_calls w))%nat
  /\ clock_reads w' = S (clock_reads w).
Proof.
  unfold matchImeiToTradeIn, bind, lift. intro H.
  destruct (fetchTradeInData env w) as [[d|e] w1] eqn:F;
    inversion H; subst; eapply fetchTradeInData_counts; eassumption.
Qed.

Lemma callHylaGateway_counts (env : Env) (params : HylaParams) (w w' : World)
  (o : outcome HylaResult) :
  callHylaGateway env params w = (o, w') ->
  hyla_calls w' = S (hyla_calls w)
  /\ catalog_calls w' = catalog_calls w
  /\ clock_reads w' = clock_reads w.
Proof.
  rewrite callHylaGateway_run. intro H. inversion H. repeat split.
Qed.

(** Collects what the calls met in a run did to the counters. *)
Ltac count_calls :=
  repeat match goal with
         | H : fetchTradeInData _ _ = _ |- _ =>
             apply fetchTradeInData_counts in H
         | H : getTradeInValue _ _ _ = _ |- _ =>
             apply getTradeInValue_counts in H
         | H : matchImeiToTradeIn _ _ _ = _ |- _ =>
             apply matchImeiToTradeIn_counts in H
         | H : callHylaGateway _ _ _ = _ |- _ =>
             apply callHylaGateway_counts in H
         end.

(** X8: the outbound calls of [get_tradein_value]. One request makes at
    most one call to the gateway and at most two to the catalog. When the
    brand, the model or a well-formed identifier is missing, nothing is
    called and nothing changes: no clock reading, no cache update. When
    the device is not in the catalog the gateway is not called. An answer
    that shows a gateway result comes from exactly one gateway call. *)
Theorem get_tradein_value_effects (env : Env) (args : GetTradeInValueArgs)
  (w : World) :
  let out := fst (get_tradein_value env args w) in
  let w' := snd (get_tradein_value env args w) in
  (hyla_calls w <= hyla_calls w' <= S (hyla_calls w))%nat
  /\ (catalog_calls w <= catalog_calls w' <= 2 + catalog_calls w)%nat
  /\ (JS.nonempty (gtv_brand args) && JS.nonempty (gtv_model args)
      && iv_valid (validateImeiFormat (gtv_imei args)) = false ->
      w' = w)
  /\ (forall c, out = Returns (RejectNotInCatalog c) ->
                hyla_calls w' = hyla_calls w)
  /\ (forall d r, out = Returns d -> decision_hyla d = Some r ->
                  hyla_calls w' = S (hyla_calls w)).
Proof.
  cbv zeta.
  destruct (get_tradein_value env args w) as [out w'] eqn:H.
  cbn [fst snd].
  unfold get_tradein_value, try_catch, bind, ret, lift in H.
  repeat run_step; count_calls.
  all: repeat split; try lia; try reflexivity; try discriminate.
  all: try (intros; discriminate).
  all: try (intros ? ? E; inversion E; subst; cbn; intros; try discriminate; lia).
  all: try (intros ? E; inversion E; subst; lia).
  all: intro E;
    destruct (JS.nonempty (gtv_brand args)), (JS.nonempty (gtv_model args)),
      (iv_valid (validateImeiFormat (gtv_imei args)));
    cbn [negb orb andb] in *; discriminate.
Qed.

(** ** What the gateway is asked *)

(** An identifier that [validateImeiFormat] accepts is, once cleaned, 15
    digits that pass the checksum. *)
Lemma validateImeiFormat_valid (s : string) :
  iv_valid (validateImeiFormat s) = true ->
  iv_cleanImei (validateImeiFormat s) = JS.remove_chars is_separator s
  /\ String.length (JS.remove_chars is_separator s) = 15%nat
  /\ JS.all_chars JS.is_digit (JS.remove_chars is_separator s) = true
  /\ luhnCheck (JS.remove_chars is_separator s) = true.
Proof.
  unfold validateImeiFormat.
  destruct (negb (_ =? 15)%nat) eqn:L; [discriminate|].
  destruct (negb (fifteen_digits _)) eqn:D; [discriminate|].
  destruct (negb (luhnCheck _)) eqn:C; [discriminate|].
  intros _. apply negb_false_iff in D, C.
  apply fifteen_digits_spec in D as [D1 D2]. repeat split; assumption.
Qed.

(** The handlers find a phone category only in a catalog document. *)
Lemma phone_entry_some (data : CatalogValue) (phone : TradeInCategory) :
  phone_entry data = Returns (Some phone) ->
  exists d, data = Document d /\ phoneCategory d = Some phone.
Proof.
  destruct data as [|d|]; cbn; intro H; try discriminate.
  exists d. split; [reflexivity|]. congruence.
Qed.

(** The gateway result in an answer of [get_tradein_value]. *)
Lemma get_tradein_value_hyla (env : Env) (args : GetTradeInValueArgs)
  (w w' : World) (d : TradeInDecision) (r : HylaResult) :
  get_tradein_value env args w = (Returns d, w') ->
  decision_hyla d = Some r ->
  exists data phone w1,
    fetchTradeInData env w = (Returns (Document data), w1)
    /\ phoneCategory data = Some phone
    /\ JS.nonempty (lookup_modelCode (JS.toLowerCase (gtv_brand args))
                      (JS.toLowerCase (gtv_model args)) (makes phone)) = true
    /\ iv_valid (validateImeiFormat (gtv_imei args)) = true
    /\ r = client_result
             (hyla_fetch_at env (hyla_calls w)
                (mkHylaQuery
                   (lookup_modelCode (JS.toLowerCase (gtv_brand args))
                      (JS.toLowerCase (gtv_model args)) (makes phone))
                   (iv_cleanImei (validateImeiFormat (gtv_imei args)))
                   None None)).
Proof.
  intros H R. unfold get_tradein_value, try_catch, bind, ret, lift in H.
  repeat run_step; cbn [decision_hyla] in R; try discriminate R.
  all: inversion R; subst; clear R.
  all: match goal with
       | F : fetchTradeInData _ _ = _, G : callHylaGateway _ _ _ = _ |- _ =>
           rewrite callHylaGateway_run in G; inversion G; subst; clear G;
           pose proof (fetchTradeInData_hyla_calls _ _ _ _ F) as HC
       end.
  all: match goal with
       | P : phone_entry _ = Returns (Some _) |- _ =>
           apply phone_entry_some in P as (doc & -> & P)
       end.
  all: eexists _, _, _; split; [reflexivity|].
  all: split; [eassumption|].
  all: repeat match goal with
              | H : negb _ = false |- _ => apply negb_false_iff in H
              end.
  all: split; [assumption|]. all: split; [assumption|].
  all: rewrite <- HC; reflexivity.
Qed.

(** X9: what [get_tradein_value] asks the gateway. The gateway result in
    an answer is the client's reading of the reply to one query; that query
    carries the identifier with its separators removed, which is 15 digits
    that pass the checksum, no phone number and no response token, and a
    model code that is not empty: the code of the first variant of a model
    of the catalog document the handler fetched, whose make and model names
    contain the brand and model asked for. *)
Theorem get_tradein_value_gateway_query (env : Env)
  (args : GetTradeInValueArgs) (w : World) (d : TradeInDecision)
  (r : HylaResult) :
  fst (get_tradein_value env args w) = Returns d ->
  decision_hyla d = Some r ->
  exists q,
    r = client_result (hyla_fetch_at env (hyla_calls w) q)
    /\ q_imeiEsn q = JS.remove_chars is_separator (gtv_imei args)
    /\ String.length (q_imeiEsn q) = 15%nat
    /\ JS.all_chars JS.is_digit (q_imeiEsn q) = true
    /\ luhnCheck (q_imeiEsn q) = true
    /\ q_mtn q = None /\ q_response q = None
    /\ JS.nonempty (q_modelCode q) = true
    /\ exists data phone make mdl,
         fst (fetchTradeInData env w) = Returns (Document data)
         /\ phoneCategory data = Some phone
         /\ In make (makes phone) /\ In mdl (models make)
         /\ first_modelCode mdl = q_modelCode q
         /\ JS.includes (JS.toLowerCase (make_name make))
                        (JS.toLowerCase (gtv_brand args)) = true
         /\ JS.includes (JS.toLowerCase (model_name mdl))
                        (JS.toLowerCase (gtv_model args)) = true.
Proof.
  intros H R.
  destruct (get_tradein_value env args w) as [out w'] eqn:E.
  cbn [fst] in H. subst out.
  destruct (get_tradein_value_hyla _ _ _ _ _ _ E R)
    as (data & phone & w1 & F & P & N & V & ->).
  destruct (validateImeiFormat_valid _ V) as (C & L & D & K).
  destruct (lookup_modelCode_first _ _ _ N)
    as (before & make & after & mdl & M & _ & B & I & Mo & Co).
  eexists. split; [reflexivity|]. cbn [q_imeiEsn q_mtn q_response q_modelCode].
  rewrite C. repeat (split; [assumption || reflexivity|]).
  exists data, phone, make, mdl. rewrite F. cbn [fst].
  repeat (split; [assumption || reflexivity|]).
  split; [rewrite M; apply in_or_app; right; left; reflexivity|].
  repeat split; assumption.
Qed.

(** A device of the catalog with a gateway that answers HTTP 200. *)
Lemma get_tradein_value_gateway_query_witness :
  exists d r q,
    fst (get_tradein_value (fixture_env (HylaHttp 200 None))
           (mkGetTradeInValueArgs "apple" "iphone 15" "49-015420-323751-8"
                                  None None)
           initial_world) = Returns d
    /\ decision_hyla d = Some r
    /\ r = client_result (HylaHttp 200 None)
    /\ q_imeiEsn q = fixture_imei
    /\ q_modelCode q = "2380452".
Proof.
  eassert (fst (get_tradein_value (fixture_env (HylaHttp 200 None))
                  (mkGetTradeInValueArgs "apple" "iphone 15"
                     "49-015420-323751-8" None None)
                  initial_world) = Returns (DiscloseValue _ _)) as E
    by (vm_compute; reflexivity).
  destruct (get_tradein_value_gateway_query
              (fixture_env (HylaHttp 200 None))
              (mkGetTradeInValueArgs "apple" "iphone 15" "49-015420-323751-8"
                                     None None)
              initial_world _ _ E eq_refl)
    as (q & R & Q & _ & _ & _ & _ & _ & _ & data & phone & make & mdl
        & F & P & Im & Imd & C & _).
  eexists _, _, q. split; [exact E|]. split; [reflexivity|].
  split; [exact R|]. split; [rewrite Q; reflexivity|].
  rewrite <- C.
  vm_compute in F. inversion F; subst data.
  vm_compute in P. inversion P; subst phone.
  destruct Im as [<-|[]]. destruct Imd as [<-|[]]. reflexivity.
Defined.

(** X10: the outbound calls of [validate_imei]. One request makes at most
    one call to the gateway and at most two to the catalog. An identifier
    that is not well formed ends the request before anything is called or
    changed, and so does a well-formed one given without model code, brand
    and model. With a model code from the caller, or with the trade-in
    check switched off, the catalog is called at most once. The report
    shows a gateway result exactly when the gateway was called, which is
    exactly when a model code is known. *)
Theorem validate_imei_effects (env : Env) (args : ValidateImeiArgs)
  (w : World) :
  let out := fst (validate_imei env args w) in
  let w' := snd (validate_imei env args w) in
  (hyla_calls w <= hyla_calls w' <= S (hyla_calls w))%nat
  /\ (catalog_calls w <= catalog_calls w' <= 2 + catalog_calls w)%nat
  /\ (iv_valid (validateImeiFormat (vi_imei args)) = false -> w' = w)
  /\ (JS.nonempty (opt_or (vi_model_code args) EmptyString) = false ->
      JS.nonempty (opt_or (vi_brand args) EmptyString) = false ->
      JS.nonempty (opt_or (vi_model args) EmptyString) = false ->
      w' = w)
  /\ (JS.nonempty (opt_or (vi_model_code args) EmptyString) = true
      \/ vi_check_tradein args = Some false ->
      (catalog_calls w' <= S (catalog_calls w))%nat)
  /\ (forall c m h t,
         out = Returns (ValidImei c m h t) ->
         (h = None <-> hyla_calls w' = hyla_calls w)
         /\ (h = None <-> JS.nonempty m = false)).
Proof.
  cbv zeta.
  destruct (validate_imei env args w) as [out w'] eqn:H.
  cbn [fst snd].
  unfold validate_imei, try_catch, bind, ret, lift in H.
  repeat run_step; count_calls.
  all: repeat match goal with
              | H : negb _ = false |- _ => apply negb_false_iff in H
              | H : negb _ = true |- _ => apply negb_true_iff in H
              end.
  all: split; [lia|]. all: split; [lia|].
  all: split; [first [reflexivity | congruence]|].
  all: cbn [lk_modelCode] in *.
  all: split;
    [intros A B C; try reflexivity; rewrite ?A, ?B, ?C in *;
     cbn [negb andb orb] in *; congruence|].
  all: split;
    [intros [A|A]; try discriminate A; rewrite ?A in *;
     cbn [negb andb orb] in *; try discriminate; lia|].
  all: intros ? ? ? ? E; inversion E; subst; clear E.
  all: split; split; intro; try discriminate; try reflexivity; try lia;
    congruence.
Qed.

(** The lookup of [validate_imei], started without a model code: a code
    that is not empty is the code of the first variant of a model of the
    catalog, and the names kept are those of that model and its make; the
    brand and the model asked for, when given, are contained in them. *)
Lemma lookup_catalog_found (brandLower modelLower : string)
  (ms : list TradeInMake) (st : Lookup) :
  JS.nonempty (lk_modelCode st) = false ->
  JS.nonempty (lk_modelCode (lookup_catalog brandLower modelLower ms st))
  = true ->
  exists make mdl,
    In make ms /\ In mdl (models make)
    /\ lookup_catalog brandLower modelLower ms st
       = mkLookup (first_modelCode mdl) (make_name make) (model_name mdl)
    /\ (JS.nonempty brandLower = true ->
        JS.includes (JS.toLowerCase (make_name make)) brandLower = true)
    /\ (JS.nonempty modelLower = true ->
        JS.includes (JS.toLowerCase (model_name mdl)) modelLower = true).
Proof.
  revert st.
  induction ms as [|make rest IH]; intros st E; cbn [lookup_catalog].
  - congruence.
  - destruct (JS.nonempty brandLower
              && negb (JS.includes (JS.toLowerCase (make_name make))
                                   brandLower)) eqn:B.
    + intro H. destruct (IH st E H) as (mk & mdl & I & R).
      exists mk, mdl. split; [right; exact I|exact R].
    + destruct (find _ (models make)) as [mdl|] eqn:F.
      * cbn [lk_modelCode].
        destruct (JS.nonempty (first_modelCode mdl)) eqn:N.
        -- intros _. destruct (find_some _ _ F) as [I T].
           apply andb_prop in T as [T _].
           exists make, mdl. split; [left; reflexivity|].
           split; [exact I|]. split; [reflexivity|]. split.
           ++ intro NB. rewrite NB in B. cbn [andb] in B.
              apply negb_false_iff in B. exact B.
           ++ intro NM. rewrite NM in T. cbn [andb] in T.
              apply negb_true_iff, negb_false_iff in T. exact T.
        -- intro H.
           destruct (IH (mkLookup (first_modelCode mdl) (make_name make)
                                  (model_name mdl)) N H)
             as (mk & m' & I & R).
           exists mk, m'. split; [right; exact I|exact R].
      * rewrite E. intro H. destruct (IH st E H) as (mk & mdl & I & R).
        exists mk, mdl. split; [right; exact I|exact R].
Qed.

(** The gateway result in a report of [validate_imei]. *)
Lemma validate_imei_hyla (env : Env) (args : ValidateImeiArgs)
  (w w' : World) (c m : string) (r : HylaResult) (t : TradeInSection) :
  validate_imei env args w = (Returns (ValidImei c m (Some r) t), w') ->
  iv_valid (validateImeiFormat (vi_imei args)) = true
  /\ c = iv_cleanImei (validateImeiFormat (vi_imei args))
  /\ JS.nonempty m = true
  /\ r = client_result
           (hyla_fetch_at env (hyla_calls w)
              (mkHylaQuery m c (if_truthy (vi_mtn args))
                           (if_truthy (vi_response_token args))))
  /\ (m = opt_or (vi_model_code args) EmptyString
      \/ JS.nonempty (opt_or (vi_model_code args) EmptyString) = false
         /\ exists data phone,
              fst (fetchTradeInData env w) = Returns (Document data)
              /\ phoneCategory data = Some phone
              /\ m = lk_modelCode
                       (lookup_catalog
                          (JS.toLowerCase (opt_or (vi_brand args) EmptyString))
                          (JS.toLowerCase (opt_or (vi_model args) EmptyString))
                          (makes phone)
                          (mkLookup (opt_or (vi_model_code args) EmptyString)
                                    (opt_or (vi_brand args) EmptyString)
                                    (opt_or (vi_model args) EmptyString)))).
Proof.
  intro H. unfold validate_imei, try_catch, bind, ret, lift in H.
  repeat run_step.
  all: repeat match goal with
              | H : negb _ = false |- _ => apply negb_false_iff in H
              | H : negb _ && _ = true |- _ => apply andb_prop in H as [? _]
              | H : negb _ = true |- _ => apply negb_true_iff in H
              end.
  all: match goal with
       | G : callHylaGateway _ _ _ = _ |- _ =>
           rewrite callHylaGateway_run in G; inversion G; subst; clear G
       end.
  all: try match goal with
           | P : phone_entry _ = Returns (Some _) |- _ =>
               apply phone_entry_some in P as (doc & -> & P)
           end.
  all: repeat match goal with
              | F : fetchTradeInData _ _ = _ |- _ =>
                  rewrite <- (fetchTradeInData_hyla_calls _ _ _ _ F);
                  apply (f_equal fst) in F; cbn [fst] in F
              end.
  all: cbn [lk_modelCode] in *.
  all: do 4 (split; [first [assumption | reflexivity]|]).
  all: first [left; reflexivity
             | right; split; [assumption|]; eexists _, _;
               split; [first [eassumption | reflexivity]|];
               split; [eassumption|reflexivity]].
Qed.

(** X11: what [validate_imei] asks the gateway. The gateway result in a
    report is the client's reading of the reply to one query; that query
    carries the cleaned identifier of the report, 15 digits that pass the
    checksum, the phone number and the response token only when they are
    not empty, and the model code of the report, which is not empty: the
    caller's model code when one is given, and otherwise the code of the
    first variant of a model of the fetched catalog whose make and model
    names contain the brand and the model that were given. *)
Theorem validate_imei_gateway_query (env : Env) (args : ValidateImeiArgs)
  (w : World) (c m : string) (r : HylaResult) (t : TradeInSection) :
  fst (validate_imei env args w) = Returns (ValidImei c m (Some r) t) ->
  exists q,
    r = client_result (hyla_fetch_at env (hyla_calls w) q)
    /\ q_imeiEsn q = c
    /\ c = JS.remove_chars is_separator (vi_imei args)
    /\ String.length c = 15%nat
    /\ JS.all_chars JS.is_digit c = true
    /\ luhnCheck c = true
    /\ q_mtn q = if_truthy (vi_mtn args)
    /\ q_response q = if_truthy (vi_response_token args)
    /\ q_mtn q <> Some EmptyString /\ q_response q <> Some EmptyString
    /\ q_modelCode q = m /\ JS.nonempty m = true
    /\ (JS.nonempty (opt_or (vi_model_code args) EmptyString) = true ->
        m = opt_or (vi_model_code args) EmptyString)
    /\ (JS.nonempty (opt_or (vi_model_code args) EmptyString) = false ->
        exists data phone make mdl,
          fst (fetchTradeInData env w) = Returns (Document data)
          /\ phoneCategory data = Some phone
          /\ In make (makes phone) /\ In mdl (models make)
          /\ first_modelCode mdl = m
          /\ (forall brand, vi_brand args = Some brand ->
                JS.nonempty brand = true ->
                JS.includes (JS.toLowerCase (make_name make))
                            (JS.toLowerCase brand) = true)
          /\ (forall model, vi_model args = Some model ->
                JS.nonempty model = true ->
                JS.includes (JS.toLowerCase (model_name mdl))
                            (JS.toLowerCase model) = true)).
Proof.
  intro H.
  destruct (validate_imei env args w) as [out w'] eqn:E.
  cbn [fst] in H. subst out.
  destruct (validate_imei_hyla _ _ _ _ _ _ _ _ E) as (V & C & N & R & P).
  destruct (validateImeiFormat_valid _ V) as (C' & L & D & K).
  rewrite C' in C. subst c.
  assert (forall x, if_truthy x <> Some EmptyString) as T.
  { intros [s|]; cbn; [|discriminate].
    destruct (JS.nonempty s) eqn:Ns; [|discriminate].
    intro Q. inversion Q. subst s. discriminate Ns. }
  eexists. split; [exact R|].
  cbn [q_imeiEsn q_mtn q_response q_modelCode].
  do 7 (split; [first [assumption | reflexivity]|]).
  split; [apply T|]. split; [apply T|].
  split; [reflexivity|]. split; [assumption|]. split.
  - intro G. destruct P as [P|[P _]]; [exact P|congruence].
  - intro G. destruct P as [P|(_ & data & phone & F & Ph & M)].
    + rewrite P in N. congruence.
    + rewrite M in N.
      destruct (lookup_catalog_found _ _ _ (mkLookup _ _ _) G N)
        as (make & mdl & Im & Imd & Lk & B & Mo).
      exists data, phone, make, mdl.
      do 4 (split; [assumption|]).
      split; [rewrite M, Lk; reflexivity|].
      assert (forall s, JS.nonempty s = true ->
                        JS.nonempty (JS.toLowerCase s) = true) as Low.
      { intros [|a s]; [discriminate|reflexivity]. }
      split.
      * intros brand Eb Nb. rewrite Eb in B. cbn [opt_or] in B.
        unfold JS.or_else in B. rewrite Nb in B. apply B, Low, Nb.
      * intros model Em Nm. rewrite Em in Mo. cbn [opt_or] in Mo.
        unfold JS.or_else in Mo. rewrite Nm in Mo. apply Mo, Low, Nm.
Qed.

(** A request with a brand and a model, and a gateway that answers
    HTTP 200: the query carries the code of the catalog. *)
Lemma validate_imei_gateway_query_witness :
  exists c m r t q,
    fst (validate_imei (fixture_env (HylaHttp 200 None))
           (mkValidateImeiArgs "490154203237518" (Some "apple")
              (Some "iphone 15") None (Some "") None None None)
           initial_world) = Returns (ValidImei c m (Some r) t)
    /\ r = client_result (HylaHttp 200 None)
    /\ q_imeiEsn q = fixture_imei
    /\ q_modelCode q = "2380452"
    /\ q_mtn q = None.
Proof.
  eassert (fst (validate_imei (fixture_env (HylaHttp 200 None))
                  (mkValidateImeiArgs "490154203237518" (Some "apple")
                     (Some "iphone 15") None (Some "") None None None)
                  initial_world) = Returns (ValidImei _ _ (Some _) _)) as E
    by (vm_compute; reflexivity).
  destruct (validate_imei_gateway_query
              (fixture_env (HylaHttp 200 None))
              (mkValidateImeiArgs "490154203237518" (Some "apple")
                 (Some "iphone 15") None (Some "") None None None)
              initial_world _ _ _ _ E)
    as (q & R & Q & _ & _ & _ & _ & Mt & _ & _ & _ & Mc & _).
  eexists _, _, _, _, q. split; [exact E|].
  split; [exact R|]. split; [exact Q|]. split; [exact Mc|exact Mt].
Defined.

(** ** Blocked answers *)

(** X12: what a blocked answer rests on. In [get_tradein_value], the
    mismatch answer is given only for a failure of the gateway with the
    code 4009, the not-eligible answer only for a failure with a code from
    4010 on, and the could-not-verify answer only for a failure without a
    code. In [validate_imei] the mismatch and device-issue sections rest on
    the same codes, and a value or a no-match section is shown only for a
    success; the could-not-verify section is shown for a failure with
    status 400 and no code, and also when the gateway was not called at
    all, which is when no model code is known. So a device the gateway
    verified is never answered as blocked, while a device the gateway was
    never asked about can be: a request for a brand that the catalog does
    not have gets the could-not-verify section without a gateway call. *)
Theorem blocked_answers_are_failures (env : Env) (w : World) :
  (forall args d w',
      get_tradein_value env args w = (Returns d, w') ->
      match d with
      | BlockMismatch r =>
          success r = false /\ hylaCode r = Some (JS.Num 4009)
      | BlockIneligible r =>
          success r = false
          /\ exists k, hylaCode r = Some (JS.Num k) /\ 4010 <= k
      | BlockUnverifiable r =>
          success r = false /\ has_code (hylaCode r) = false
      | _ => True
      end)
  /\ (forall args c m h t w',
        validate_imei env args w = (Returns (ValidImei c m h t), w') ->
        match t with
        | SectionMismatch =>
            exists r, h = Some r
                      /\ success r = false
                      /\ hylaCode r = Some (JS.Num 4009)
        | SectionDeviceIssue =>
            exists r, h = Some r
                      /\ success r = false
                      /\ exists k, hylaCode r = Some (JS.Num k) /\ 4010 <= k
        | SectionUnverifiable =>
            (h = None /\ JS.nonempty m = false
             /\ hyla_calls w' = hyla_calls w)
            \/ (exists r, h = Some r
                          /\ success r = false /\ status r = 400
                          /\ has_code (hylaCode r) = false)
        | SectionValue _ _ _ | SectionNoMatch =>
            exists r, h = Some r /\ success r = true
        | SectionAskDevice | SectionNone => True
        end)
  /\ (forall args d r w',
        get_tradein_value env args w = (Returns d, w') ->
        decision_hyla d = Some r ->
        success r = true ->
        (exists message, d = VerifiedNoValue r message)
        \/ (exists device, d = DiscloseValue r device))
  /\ (forall args c m r t w',
        validate_imei env args w = (Returns (ValidImei c m (Some r) t), w') ->
        success r = true ->
        t <> SectionMismatch /\ t <> SectionDeviceIssue
        /\ t <> SectionUnverifiable)
  /\ validate_imei (fixture_env (HylaHttp 200 None))
       (mkValidateImeiArgs fixture_imei (Some "Samsung") None None None None
                           None None)
       initial_world
     = (Returns (ValidImei fixture_imei EmptyString None SectionUnverifiable),
        mkWorld (Document fixture_catalog) 0 1 1 0).
Proof.
  assert (forall args d w',
             get_tradein_value env args w = (Returns d, w') ->
             match d with
             | BlockMismatch r =>
                 success r = false /\ hylaCode r = Some (JS.Num 4009)
             | BlockIneligible r =>
                 success r = false
                 /\ exists k, hylaCode r = Some (JS.Num k) /\ 4010 <= k
             | BlockUnverifiable r =>
                 success r = false /\ has_code (hylaCode r) = false
             | _ => True
             end) as G.
  { intros args d w' H.
    unfold get_tradein_value, try_catch, bind, ret, lift in H.
    repeat run_step; try exact I.
    all: match goal with
         | G : callHylaGateway _ _ _ = _ |- _ =>
             rewrite callHylaGateway_run in G; inversion G; subst; clear G
         end.
    + split; [apply client_result_codes; assumption|].
      apply code_is_spec; assumption.
    + match goal with
      | G : has_code _ && code_ge _ _ = true |- _ =>
          apply andb_prop in G as [_ G]; unfold code_ge in G
      end.
      match goal with
      | |- context [hylaCode ?r] => destruct (hylaCode r) as [n|] eqn:C
      end; [|discriminate].
      destruct (proj2 (client_result_codes _) n C) as [S (k & -> & K)];
        [assumption|].
      split; [exact S|]. exists k. split; [reflexivity|exact K].
    + match goal with
      | G : negb _ && negb _ = true |- _ => apply andb_prop in G as [G1 G2]
      end.
      apply negb_true_iff in G1, G2. split; assumption. }
  assert (forall args c m h t w',
             validate_imei env args w = (Returns (ValidImei c m h t), w') ->
             match t with
             | SectionMismatch =>
                 exists r, h = Some r
                           /\ success r = false
                           /\ hylaCode r = Some (JS.Num 4009)
             | SectionDeviceIssue =>
                 exists r, h = Some r
                           /\ success r = false
                           /\ exists k, hylaCode r = Some (JS.Num k)
                                        /\ 4010 <= k
             | SectionUnverifiable =>
                 (h = None /\ JS.nonempty m = false
                  /\ hyla_calls w' = hyla_calls w)
                 \/ (exists r, h = Some r
                               /\ success r = false /\ status r = 400
                               /\ has_code (hylaCode r) = false)
             | SectionValue _ _ _ | SectionNoMatch =>
                 exists r, h = Some r /\ success r = true
             | SectionAskDevice | SectionNone => True
             end) as V.
  { intros args c m h t w' H.
    unfold validate_imei, try_catch, bind, ret, lift in H.
    repeat run_step; try exact I.
    all: cbn [lk_modelCode] in *.
    all: try (left; split; [reflexivity|]; split; [assumption|];
              first [reflexivity
                    | match goal with
                      | F : fetchTradeInData _ _ = _ |- _ =>
                          exact (fetchTradeInData_hyla_calls _ _ _ _ F)
                      end]).
    all: match goal with
         | G : callHylaGateway _ _ _ = _ |- _ =>
             rewrite callHylaGateway_run in G; inversion G; subst; clear G
         end.
    all: try (eexists; split; [reflexivity|]; assumption).
    all: try (eexists; split; [reflexivity|];
              split; [apply client_result_codes; assumption|];
              apply code_is_spec; assumption).
    all: try match goal with
             | C : hylaCode _ = Some ?j, G : JS.ge ?j _ = true |- _ =>
                 destruct (proj2 (client_result_codes _) j C G)
                   as [S (k & -> & K)];
                 eexists; split; [reflexivity|];
                 split; [exact S|]; exists k;
                 split; [first [reflexivity | assumption]|exact K]
             end.
    all: right; eexists; split; [reflexivity|]; split; [assumption|].
    all: match goal with
         | G : _ || _ = true |- _ =>
             rewrite orb_false_r in G; apply andb_prop in G as [G1 G2];
             apply Z.eqb_eq in G1; apply negb_true_iff in G2
         end.
    all: split; first [assumption | congruence]. }
  split; [exact G|]. split; [exact V|]. split; [|split].
  - intros args d r w' H D S. specialize (G args d w' H).
    destruct d; cbn [decision_hyla] in D; try discriminate D;
      inversion D; subst.
    + destruct G as [G _]. congruence.
    + destruct G as [G _]. congruence.
    + destruct G as [G _]. congruence.
    + left. eexists. reflexivity.
    + right. eexists. reflexivity.
  - intros args c m r t w' H S. specialize (V args c m (Some r) t w' H).
    destruct t; repeat split; try discriminate; intros _.
    + destruct V as (r' & E & F & _). inversion E; subst. congruence.
    + destruct V as (r' & E & F & _). inversion E; subst. congruence.
    + destruct V as [(E & _)|(r' & E & F & _)]; [discriminate E|].
      inversion E; subst. congruence.
  - vm_compute. reflexivity.
Qed.

(** ** The catalog queries *)

(** X13: the listings agree with the resolver. For a brand that
    [getTradeInBrands] lists, [getTradeInModels] lists the models of the
    first make of that name, and [getTradeInValue], asked on the same
    catalog document, does not miss the brand: a result that is no success
    is the model miss of that make. For a model that [getTradeInModels]
    lists for the brand, every result is a success, and its device is a
    listed model of the brand whose name and the model asked for contain
    one another. *)
Theorem listed_devices_are_resolvable (data : CatalogValue)
  (brands : list string) (brand : string) :
  getTradeInBrands_with data = Returns brands ->
  In brand brands ->
  exists make,
    getTradeInModels_with data brand = Returns (map model_name (models make))
    /\ same_brand (make_name make) brand = true
    /\ forall model capacity good res,
         getTradeInValue_with data (mkTradeInArgs brand model capacity good)
         = Returns res ->
         (tv_success res = false ->
          tv_message res = model_miss_message model brand (models make))
         /\ (In model (map model_name (models make)) ->
             tv_success res = true
             /\ exists dev,
                  tv_device res = Some dev
                  /\ dv_brand dev = brand
                  /\ In (dv_model dev) (map model_name (models make))
                  /\ fuzzy_match (dv_model dev) model = true).
Proof.
  unfold getTradeInBrands_with, getTradeInModels_with, getTradeInValue_with.
  destruct data as [|d|]; [intros [= <-] []| |discriminate].
  destruct (phoneCategory d) as [phone|]; [|intros [= <-] []].
  intros [= <-] I. apply in_map_iff in I as (mk & N & I).
  destruct (find (fun m => same_brand (make_name m) brand) (makes phone))
    as [make|] eqn:F.
  2:{ exfalso. apply (find_none _ _ F) in I. subst brand.
      unfold same_brand in I. rewrite String.eqb_refl in I. discriminate. }
  exists make. split; [reflexivity|].
  split; [apply (find_some _ _ F)|].
  intros model capacity good res.
  cbn [arg_brand arg_model arg_capacity arg_good_condition]. rewrite F.
  destruct (find (fun m => fuzzy_match (model_name m) model) (models make))
    as [mdl|] eqn:G.
  - intro H. destruct (find_some _ _ G) as [Im Fm].
    assert (tv_success res = true
            /\ exists dev, tv_device res = Some dev /\ dv_brand dev = brand
                           /\ dv_model dev = model_name mdl) as (S & dev & D & B & M).
    { unfold type_error in H.
      repeat run_step; cbn; (split; [reflexivity|]);
        eexists; repeat split. }
    split; [rewrite S; discriminate|]. intros _.
    split; [exact S|]. exists dev. split; [exact D|]. split; [exact B|].
    rewrite M. split; [apply in_map; exact Im|exact Fm].
  - intro H. injection H as <-. cbn [not_found tv_success tv_message].
    split; [reflexivity|].
    intro Im. exfalso. apply in_map_iff in Im as (m0 & E & Im).
    apply (find_none _ _ G) in Im. subst model.
    unfold fuzzy_match in Im. rewrite includes_refl in Im. discriminate.
Qed.

(** The brand of the one-phone catalog. *)
Lemma listed_devices_are_resolvable_witness :
  getTradeInBrands_with (Document fixture_catalog) = Returns ["Apple"]
  /\ exists make,
       getTradeInModels_with (Document fixture_catalog) "Apple"
       = Returns (map model_name (models make))
       /\ same_brand (make_name make) "Apple" = true.
Proof.
  assert (getTradeInBrands_with (Document fixture_catalog)
          = Returns ["Apple"]) as B by reflexivity.
  split; [exact B|].
  destruct (listed_devices_are_resolvable (Document fixture_catalog)
              ["Apple"] "Apple" B (or_introl eq_refl))
    as (make & M & S & _).
  exists make. split; [exact M|exact S].
Defined.

Lemma search_hits_spec (q : string) (ms : list TradeInMake) (r : SearchResult) :
  In r (search_hits q ms)
  <-> exists make model,
        In make ms /\ In model (models make)
        /\ search_hit q make model = true /\ r = search_entry make model.
Proof.
  unfold search_hits. rewrite in_flat_map. split.
  - intros (make & Im & I). apply in_map_iff in I as (model & E & I).
    apply filter_In in I as [I H].
    exists make, model. repeat split; auto.
  - intros (make & model & Im & I & H & ->).
    exists make. split; [exact Im|].
    apply in_map, filter_In. split; assumption.
Qed.

Lemma firstn_short {A} (n : nat) (l : list A) :
  (List.length (firstn n l) < n)%nat -> firstn n l = l.
Proof.
  intro H. apply firstn_all2.
  destruct (Nat.le_gt_cases (List.length l) n) as [L|L]; [exact L|].
  rewrite firstn_length_le in H; lia.
Qed.

Lemma in_firstn {A} (n : nat) (l : list A) (x : A) :
  In x (firstn n l) -> In x l.
Proof.
  intro H. rewrite <- (firstn_skipn n l). apply in_or_app. left. exact H.
Qed.

(** The three queries throw on the same catalog values: those that have
    no [devices] array. *)
Lemma catalog_queries_throw (data : CatalogValue) :
  (forall e, getTradeInBrands_with data = Throws e -> data = Shapeless)
  /\ (forall brand e,
         getTradeInModels_with data brand = Throws e -> data = Shapeless)
  /\ (forall query e,
         searchTradeInDevices_with data query = Throws e -> data = Shapeless)
  /\ (data = Shapeless ->
      getTradeInBrands_with data = type_error
      /\ (forall brand, getTradeInModels_with data brand = type_error)
      /\ (forall query, searchTradeInDevices_with data query = type_error)).
Proof.
  unfold getTradeInBrands_with, getTradeInModels_with,
    searchTradeInDevices_with.
  destruct data as [|d|].
  - repeat split; intros; discriminate.
  - split; [|split; [|split]]; intros; try discriminate.
    + destruct (phoneCategory d); discriminate.
    + destruct (phoneCategory d) as [phone|]; [|discriminate].
      destruct (find _ _); discriminate.
    + destruct (phoneCategory d); discriminate.
  - repeat split.
Qed.


(** X14: the results of [searchTradeInDevices]. The search returns a list
    for every catalog value that has a [devices] array or is falsy. There
    are at most 20 results. Each is a model of the phone catalog whose
    name, or whose make's name, contains the query up to case, with the
    name of that make and the capacities and prices of that model's
    variants. When fewer than 20 come back nothing was left out: every
    such model is among them. *)
Theorem searchTradeInDevices_results (data : CatalogValue)
  (query : string) :
  (data <> Shapeless ->
   exists rs, searchTradeInDevices_with data query = Returns rs)
  /\ forall rs,
       searchTradeInDevices_with data query = Returns rs ->
       (List.length rs <= 20)%nat
       /\ (forall r,
              In r rs ->
              exists d phone make model,
                data = Document d /\ phoneCategory d = Some phone
                /\ In make (makes phone) /\ In model (models make)
                /\ (JS.includes (JS.toLowerCase (model_name model))
                                (JS.toLowerCase query) = true
                    \/ JS.includes (JS.toLowerCase (make_name make))
                                   (JS.toLowerCase query) = true)
                /\ sr_brand r = make_name make /\ sr_model r = model_name model
                /\ sr_capacities r
                   = map (fun pf => (capacity pf, modelPrice pf))
                         (productFamily model)
                /\ exists brands,
                     getTradeInBrands_with data = Returns brands
                     /\ In (sr_brand r) brands)
       /\ ((List.length rs < 20)%nat ->
           forall d phone make model,
             data = Document d -> phoneCategory d = Some phone ->
             In make (makes phone) -> In model (models make) ->
             JS.includes (JS.toLowerCase (model_name model))
                         (JS.toLowerCase query) = true
             \/ JS.includes (JS.toLowerCase (make_name make))
                            (JS.toLowerCase query) = true ->
             In (search_entry make model) rs).
Proof.
  assert (forall a b : list SearchResult,
             @Returns (list SearchResult) a = Returns b -> a = b) as Inj
      by (intros a b E; congruence).
  unfold searchTradeInDevices_with, getTradeInBrands_with.
  destruct data as [|d|]; [|destruct (phoneCategory d) as [phone|] eqn:P|].
  - split; [intros _; eexists; reflexivity|]. intros rs [= <-].
    split; [cbn; lia|]. split; [intros r []|].
    intros _ d' phone make model E. discriminate E.
  - split; [intros _; eexists; reflexivity|].
    intros rs E. apply Inj in E. subst rs.
    split; [apply firstn_le_length|]. split.
    + intros r I. apply in_firstn, search_hits_spec in I
        as (make & model & Im & Imd & H & ->).
      exists d, phone, make, model.
      do 4 (split; [assumption || reflexivity|]).
      split; [apply orb_prop; exact H|].
      do 3 (split; [reflexivity|]).
      eexists. split; [reflexivity|].
      cbn [sr_brand search_entry]. apply in_map. exact Im.
    + intros S d' phone' make model E P' Im Imd H.
      inversion E; subst d'. rewrite P in P'. inversion P'; subst phone'.
      rewrite (firstn_short _ _ S). apply search_hits_spec.
      exists make, model. repeat split; try assumption.
      unfold search_hit. destruct H as [-> | ->];
        [reflexivity|apply orb_true_r].
  - split; [intros _; eexists; reflexivity|]. intros rs [= <-].
    split; [cbn; lia|]. split; [intros r []|].
    intros _ d' phone make model E P'. inversion E; subst d'. congruence.
  - split; [intro H; contradiction H; reflexivity|]. discriminate.
Qed.


(** ** The device that is verified and the device that is valued *)




(** ** The labels of the gateway's fields *)

Lemma lower_upper_char (c : ascii) :
  JS.lower_char (upper_char c) = JS.lower_char c.
Proof. destruct c as [[] [] [] [] [] [] [] []]; reflexivity. Qed.

Lemma is_filler_lower (c : ascii) : is_filler (JS.lower_char c) = is_filler c.
Proof. destruct c as [[] [] [] [] [] [] [] []]; reflexivity. Qed.

Lemma is_space_filler (c : ascii) : JS.is_space c = true -> is_filler c = true.
Proof. unfold is_filler. intros ->. reflexivity. Qed.

Lemma underscore_filler (c : ascii) :
  (JS.code c =? 95)%N = true -> is_filler c = true.
Proof. unfold is_filler. intros ->. apply orb_true_r. Qed.

Lemma upper_char_not_underscore (c : ascii) :
  (JS.code c =? 95)%N = false -> (JS.code (upper_char c) =? 95)%N = false.
Proof. destruct c as [[] [] [] [] [] [] [] []]; intro H; exact H || reflexivity. Qed.

Lemma letters_cons (c : ascii) (r : string) :
  letters (String c r)
  = if is_filler c then letters r
    else String (JS.lower_char c) (letters r).
Proof.
  unfold letters. cbn [JS.toLowerCase JS.remove_chars].
  rewrite is_filler_lower. reflexivity.
Qed.

Lemma letters_space_capitals (s : string) :
  letters (space_capitals s) = letters s.
Proof.
  induction s as [|c r IH]; [reflexivity|]. cbn [space_capitals].
  destruct (is_upper c).
  - rewrite (letters_cons space). cbn [is_filler]. cbv iota.
    replace (is_filler space) with true by reflexivity.
    rewrite !letters_cons, IH. reflexivity.
  - rewrite !letters_cons, IH. reflexivity.
Qed.

Lemma letters_underscores_to_spaces (s : string) :
  letters (underscores_to_spaces s) = letters s.
Proof.
  induction s as [|c r IH]; [reflexivity|]. cbn [underscores_to_spaces].
  rewrite !letters_cons, IH.
  destruct (JS.code c =? 95)%N eqn:U; [|reflexivity].
  rewrite (underscore_filler c U). reflexivity.
Qed.

Lemma letters_capitalize_first (s : string) :
  letters (capitalize_first s) = letters s.
Proof.
  destruct s as [|c r]; [reflexivity|]. cbn [capitalize_first].
  destruct (is_word c); [|reflexivity].
  unfold letters. cbn [JS.toLowerCase]. rewrite lower_upper_char. reflexivity.
Qed.

Lemma letters_trim_start (s : string) : letters (trim_start s) = letters s.
Proof.
  induction s as [|c r IH]; [reflexivity|]. cbn [trim_start].
  destruct (JS.is_space c) eqn:Sp; [|reflexivity].
  rewrite letters_cons, (is_space_filler c Sp). exact IH.
Qed.

Lemma letters_trim_end (s : string) : letters (trim_end s) = letters s.
Proof.
  induction s as [|c r IH]; [reflexivity|]. cbn [trim_end].
  destruct (trim_end r) as [|c' r'] eqn:T.
  - rewrite letters_cons, <- IH.
    destruct (JS.is_space c) eqn:Sp.
    + rewrite (is_space_filler c Sp). reflexivity.
    + rewrite letters_cons. reflexivity.
  - rewrite (letters_cons c (String c' r')), (letters_cons c r), IH.
    reflexivity.
Qed.

Lemma trim_start_first (s : string) (c : ascii) :
  first_char (trim_start s) = Some c -> JS.is_space c = false.
Proof.
  induction s as [|a r IH]; [discriminate|]. cbn [trim_start].
  destruct (JS.is_space a) eqn:Sp; [exact IH|].
  cbn. intro H. inversion H. subst. exact Sp.
Qed.

Lemma trim_end_first (s : string) (c : ascii) :
  first_char (trim_end s) = Some c -> first_char s = Some c.
Proof.
  destruct s as [|a r]; [discriminate|]. cbn [trim_end].
  destruct (trim_end r); [destruct (JS.is_space a); [discriminate|]|];
    intro H; exact H.
Qed.

Lemma trim_end_last (s : string) (c : ascii) :
  last_char (trim_end s) = Some c -> JS.is_space c = false.
Proof.
  induction s as [|a r IH]; [discriminate|]. cbn [trim_end].
  destruct (trim_end r) as [|c' r'] eqn:T.
  - destruct (JS.is_space a) eqn:Sp; [discriminate|].
    cbn. intro H. inversion H. subst. exact Sp.
  - cbn [last_char]. exact IH.
Qed.

Lemma no_underscore_trim_start (s : string) :
  no_underscore s = true -> no_underscore (trim_start s) = true.
Proof.
  unfold no_underscore.
  induction s as [|a r IH]; [reflexivity|]. cbn [trim_start JS.all_chars].
  intro H. destruct (JS.is_space a); [|exact H].
  apply andb_prop in H as [_ H]. exact (IH H).
Qed.

Lemma no_underscore_trim_end (s : string) :
  no_underscore s = true -> no_underscore (trim_end s) = true.
Proof.
  unfold no_underscore.
  induction s as [|a r IH]; [reflexivity|]. cbn [trim_end JS.all_chars].
  intro H. apply andb_prop in H as [Ha Hr]. specialize (IH Hr).
  destruct (trim_end r) as [|c' r'].
  - destruct (JS.is_space a); [reflexivity|].
    cbn [JS.all_chars]. rewrite Ha. reflexivity.
  - cbn [JS.all_chars] in *. rewrite Ha. exact IH.
Qed.

Lemma no_underscore_replaced (s : string) :
  no_underscore (underscores_to_spaces s) = true.
Proof.
  unfold no_underscore.
  induction s as [|a r IH]; [reflexivity|].
  cbn [underscores_to_spaces JS.all_chars]. rewrite IH.
  destruct (JS.code a =? 95)%N eqn:U; [reflexivity|].
  rewrite U. reflexivity.
Qed.

Lemma letters_empty (s : string) :
  letters s = EmptyString <-> JS.all_chars is_filler s = true.
Proof.
  induction s as [|a r IH]; [split; reflexivity|].
  rewrite letters_cons. cbn [JS.all_chars].
  destruct (is_filler a); cbn [andb]; [exact IH|].
  split; discriminate.
Qed.

(** X17: the label [formatKey] makes of a field name. It contains no
    underscore and neither begins nor ends with white space. Its letters
    and digits are those of the name, in the same order and up to case:
    only white space and underscores are added, replaced or dropped. It is
    empty exactly when the name consists of white space and underscores. *)
Theorem formatKey_label (key : string) :
  no_underscore (formatKey key) = true
  /\ (forall c, first_char (formatKey key) = Some c -> JS.is_space c = false)
  /\ (forall c, last_char (formatKey key) = Some c -> JS.is_space c = false)
  /\ letters (formatKey key) = letters key
  /\ (formatKey key = EmptyString <-> JS.all_chars is_filler key = true).
Proof.
  assert (no_underscore (formatKey key) = true) as U.
  { unfold formatKey, trim.
    apply no_underscore_trim_end, no_underscore_trim_start.
    pose proof (no_underscore_replaced (space_capitals key)) as H.
    destruct (underscores_to_spaces (space_capitals key)) as [|c r];
      [reflexivity|].
    cbn [capitalize_first]. destruct (is_word c); [|exact H].
    unfold no_underscore in *. cbn [JS.all_chars] in *.
    apply andb_prop in H as [Hc Hr]. rewrite Hr.
    apply negb_true_iff in Hc.
    rewrite (upper_char_not_underscore c Hc). reflexivity. }
  assert (forall c, first_char (formatKey key) = Some c ->
                    JS.is_space c = false) as F.
  { intros c H. unfold formatKey, trim in H.
    apply trim_end_first in H. exact (trim_start_first _ _ H). }
  assert (letters (formatKey key) = letters key) as L.
  { unfold formatKey, trim.
    rewrite letters_trim_end, letters_trim_start, letters_capitalize_first,
      letters_underscores_to_spaces, letters_space_capitals. reflexivity. }
  split; [exact U|]. split; [exact F|].
  split; [intros c H; exact (trim_end_last _ _ H)|].
  split; [exact L|]. split.
  - intro E. apply letters_empty. rewrite <- L, E. reflexivity.
  - intro A. apply letters_empty in A. rewrite <- L in A.
    apply letters_empty in A.
    destruct (formatKey key) as [|c r]; [reflexivity|]. exfalso.
    unfold no_underscore in U. cbn [JS.all_chars] in U, A.
    apply andb_prop in U as [Uc _]. apply andb_prop in A as [Ac _].
    specialize (F c eq_refl). unfold is_filler in Ac. rewrite F in Ac.
    cbn [orb] in Ac. rewrite Ac in Uc. discriminate.
Qed.

(** ** Address qualification and the internet plans *)

Lemma assoc_none (key : string) (l : list (string * QualificationState)) :
  assoc key l = None <-> ~ In key (map fst l).
Proof.
  induction l as [|[k q] rest IH]; cbn [assoc map fst In].
  - split; [intros _ []|reflexivity].
  - destruct (k =? key)%string eqn:E.
    + apply String.eqb_eq in E. split; [discriminate|].
      intro H. exfalso. apply H. left. exact E.
    + apply String.eqb_neq in E. rewrite IH. tauto.
Qed.

(** A plain key reads its own property, and nothing from the prototypes. *)
Lemma store_get_plain (st : QualStore) (key : string) :
  plain_key key = true ->
  store_get st key
  = match assoc key (own st) with
    | Some q => LState q
    | None => LUndefined
    end.
Proof.
  unfold plain_key, object_prototype_names. intro H.
  apply negb_true_iff in H. cbn [existsb] in H.
  repeat match type of H with
         | _ || _ = false => apply orb_false_elim in H as [? H]
         end.
  unfold store_get, inherited, object_prototype_names. cbn [existsb].
  repeat match goal with E : (key =? _)%string = false |- _ =>
           rewrite E; clear E end.
  destruct (assoc key (own st)); [reflexivity|].
  destruct (proto st); reflexivity.
Qed.

Lemma own_store_set (st : QualStore) (key : string) (q : QualificationState)
  (k : string) :
  In k (map fst (own (store_set st key q)))
  <-> (k = key /\ key <> "__proto__") \/ In k (map fst (own st)).
Proof.
  unfold store_set. destruct (key =? "__proto__")%string eqn:E.
  - apply String.eqb_eq in E. cbn [own]. split; [tauto|].
    intros [[_ H]|H]; [contradiction|exact H].
  - apply String.eqb_neq in E. cbn [own map fst In]. split.
    + intros [H|H]; [left; split; [symmetry; exact H|exact E]|right; exact H].
    + intros [[H _]|H]; [left; symmetry; exact H|right; exact H].
Qed.

Lemma own_checks_run (internet : list InternetPlan)
  (cs : list (string * CheckArgs)) (st : QualStore) (k : string) :
  In k (map fst (own (checks_run internet cs st)))
  <-> (In k (checked_ids cs) /\ k <> "__proto__") \/ In k (map fst (own st)).
Proof.
  revert st. induction cs as [|[stamp args] rest IH]; intro st.
  - cbn. tauto.
  - cbn [checks_run checked_ids map In snd]. rewrite IH.
    unfold checkAddressQualification. cbn [snd].
    rewrite own_store_set. fold (checked_ids rest).
    split.
    + intros [[H N]|[[H N]|H]].
      * left. split; [right; exact H|exact N].
      * left. split; [left; symmetry; exact H|congruence].
      * right. exact H.
    + intros [[[H|H] N]|H].
      * right. left. split; [symmetry; exact H|congruence].
      * left. split; assumption.
      * right. right. exact H.
Qed.

(** Reading the key that was just written gives the state written. *)
Lemma store_get_set (st : QualStore) (key : string) (q : QualificationState) :
  store_get (store_set st key q) key = LState q.
Proof.
  unfold store_set, store_get. destruct (key =? "__proto__")%string eqn:E.
  - reflexivity.
  - cbn [own assoc]. rewrite String.eqb_refl. reflexivity.
Qed.

(** Writing a key changes what another key reads only outside the stored
    states: a state is read after the write exactly when it was before. *)
Lemma store_get_other (st : QualStore) (key k : string)
  (q : QualificationState) :
  k <> key ->
  (forall q', store_get (store_set st key q) k = LState q'
              <-> store_get st k = LState q').
Proof.
  intros N q'. unfold store_set, store_get.
  destruct (k =? "__proto__")%string eqn:Ek;
    destruct (key =? "__proto__")%string eqn:Ekey; cbn [own proto assoc].
  - apply String.eqb_eq in Ek, Ekey. congruence.
  - reflexivity.
  - destruct (assoc k (own st)); [reflexivity|].
    unfold inherited.
    destruct (proto st);
      repeat match goal with
             | |- context [if ?b then _ else _] => destruct b
             end; split; intro H; discriminate H.
  - assert ((key =? k)%string = false) as ->
        by (apply String.eqb_neq; congruence).
    reflexivity.
Qed.


(** Only a stored state makes [getInternetPlans] show the fiber plans. *)
Lemma getInternetPlans_by_state (MinSpeed : Type)
  (speed_at_least : string -> MinSpeed -> bool)
  (internet : list InternetPlan) (st st' : QualStore)
  (args : InternetArgs MinSpeed) :
  (forall q, store_get st' (opt_or (ia_user_id args) "default") = LState q
             <-> store_get st (opt_or (ia_user_id args) "default") = LState q) ->
  getInternetPlans speed_at_least internet st' args
  = getInternetPlans speed_at_least internet st args.
Proof.
  intro H. unfold getInternetPlans.
  assert (forall v, (if looked_truthy v
                     then if looked_fiber v
                          then filter (in_category "Fiber") internet
                          else filter (in_category "Internet Air") internet
                     else filter (in_category "Internet Air") internet)
                    = if looked_fiber v
                      then filter (in_category "Fiber") internet
                      else filter (in_category "Internet Air") internet) as T.
  { intros [q|s|b| |]; cbn; try reflexivity.
    - destruct (JS.nonempty s); reflexivity.
    - destruct b; reflexivity. }
  rewrite !T.
  assert (looked_fiber (store_get st' (opt_or (ia_user_id args) "default"))
          = looked_fiber (store_get st (opt_or (ia_user_id args) "default")))
    as ->; [|reflexivity].
  destruct (store_get st' _) as [q| | | |] eqn:E'.
  - rewrite (proj1 (H q) eq_refl). reflexivity.
  - destruct (store_get st _) as [q| | | |] eqn:E; try reflexivity.
    discriminate (proj2 (H q) eq_refl).
  - destruct (store_get st _) as [q| | | |] eqn:E; try reflexivity.
    discriminate (proj2 (H q) eq_refl).
  - destruct (store_get st _) as [q| | | |] eqn:E; try reflexivity.
    discriminate (proj2 (H q) eq_refl).
  - destruct (store_get st _) as [q| | | |] eqn:E; try reflexivity.
    discriminate (proj2 (H q) eq_refl).
Qed.

(** X18: an address check and the plans that follow it.
    [checkAddressQualification] always qualifies, offers exactly one of
    fiber and Internet Air, fiber exactly when the first two characters of
    the zip are one of the twelve listed prefixes, and returns the plans
    of that one category. After it [getInternetPlans], asked for the same
    user without a speed and without the fiber override, returns the same
    plans, and [get_internet_plans] shows them with the address and zip
    that were checked. What [getInternetPlans] returns for any other user
    is unchanged. The handler [check_address] stores and reports just
    this, and stores nothing when the catalog cannot be loaded. *)
Theorem check_then_plans (MinSpeed : Type)
  (speed_at_least : string -> MinSpeed -> bool)
  (internet : list InternetPlan) (stamp : string) (args : CheckArgs)
  (st : QualStore) :
  let r := fst (checkAddressQualification internet stamp args st) in
  let st' := snd (checkAddressQualification internet stamp args st) in
  qualified r = true
  /\ internet_air_available r = negb (fiber_available r)
  /\ (fiber_available r = true <-> In (zipPrefix (ca_zip args)) fiberZips)
  /\ (forall p, In p (available_plans r)
                <-> In p internet
                    /\ plan_category p
                       = if fiber_available r then "Fiber"
                         else "Internet Air")
  /\ getInternetPlans speed_at_least internet st'
       (mkInternetArgs None (ca_user_id args) None)
     = available_plans r
  /\ get_internet_plans speed_at_least (Returns internet) st' None
       (ca_user_id args)
     = PlansShown (Some (ca_address args)) (Some (ca_zip args))
                  (fiber_available r) (available_plans r)
  /\ (forall other : InternetArgs MinSpeed,
         opt_or (ia_user_id other) "default"
         <> opt_or (ca_user_id args) "default" ->
         getInternetPlans speed_at_least internet st' other
         = getInternetPlans speed_at_least internet st other)
  /\ check_address (Returns internet) stamp args st
     = (AddressQualified (fiber_available r), st')
  /\ (forall e, check_address (Throws e) stamp args st = (AddressError, st)).
Proof.
  cbv zeta. unfold checkAddressQualification. cbn [fst snd].
  cbn [qualified internet_air_available fiber_available available_plans].
  set (u := opt_or (ca_user_id args) "default").
  set (f := existsb (String.eqb (zipPrefix (ca_zip args))) fiberZips).
  set (q := mkQualificationState (ca_address args) (ca_zip args) f stamp).
  assert (JS.nonempty u = true) as Nu.
  { unfold u. apply opt_or_nonempty. reflexivity. }
  assert (opt_or (Some u) "default" = u) as Ou.
  { cbn [opt_or]. unfold JS.or_else. rewrite Nu. reflexivity. }
  assert (getInternetPlans speed_at_least internet
            (store_set st u q)
            (mkInternetArgs None (ca_user_id args) None)
          = if f then filter (in_category "Fiber") internet
            else filter (in_category "Internet Air") internet) as G.
  { unfold getInternetPlans. cbn [ia_user_id ia_include_fiber ia_min_speed].
    fold u. rewrite store_get_set. reflexivity. }
  split; [reflexivity|]. split; [reflexivity|]. split.
  { unfold f. rewrite existsb_exists. split.
    - intros (x & I & E). apply String.eqb_eq in E. subst x. exact I.
    - intro I. exists (zipPrefix (ca_zip args)). split; [exact I|].
      apply String.eqb_refl. }
  split.
  { intro p. destruct f; rewrite filter_In; unfold in_category;
      rewrite String.eqb_eq; reflexivity. }
  split; [exact G|]. split.
  - unfold get_internet_plans. fold u. rewrite store_get_set.
    cbn [looked_truthy negb looked_address looked_zip looked_fiber
         q_address q_zip q_fiber_available q].
    f_equal. rewrite <- G. unfold getInternetPlans.
    cbn [ia_user_id ia_include_fiber ia_min_speed]. fold u. rewrite Ou.
    reflexivity.
  - split; [|split; reflexivity].
    intros other N. apply getInternetPlans_by_state.
    intro q'. apply store_get_other. exact N.
Qed.

Lemma plain_key_not_proto (key : string) :
  plain_key key = true -> key <> "__proto__".
Proof.
  unfold plain_key. intros H ->. discriminate H.
Qed.

(** X19: when [get_internet_plans] asks for an address check. After any
    series of address checks from the start of the process, a request
    under a user id that names no member of [Object.prototype] and no
    field of a stored state gets the plans exactly when an address was
    checked under that id, and the text that asks for a check otherwise.
    Under the user id [__proto__], or the name of a member of
    [Object.prototype] such as [constructor] or [toString], the text that
    asks for a check is never given: before any address check the Internet
    Air plans are shown, without address and zip. *)
Theorem plans_need_a_checked_address (MinSpeed : Type)
  (speed_at_least : string -> MinSpeed -> bool)
  (internet : list InternetPlan) (min_speed : option MinSpeed) :
  (forall cs load user_id,
      plain_key (opt_or user_id "default") = true ->
      (get_internet_plans speed_at_least load
         (checks_run internet cs empty_store) min_speed user_id
       = QualificationRequired
       <-> ~ In (opt_or user_id "default") (checked_ids cs)))
  /\ (forall st load key,
        In key ("__proto__" :: object_prototype_names) ->
        get_internet_plans speed_at_least load st min_speed (Some key)
        <> QualificationRequired)
  /\ (forall key,
        In key ("__proto__" :: object_prototype_names) ->
        get_internet_plans speed_at_least (Returns internet) empty_store None
                           (Some key)
        = PlansShown None None false
            (filter (in_category "Internet Air") internet)).
Proof.
  split; [|split].
  - intros cs load user_id P. unfold get_internet_plans.
    rewrite (store_get_plain _ _ P).
    pose proof (own_checks_run internet cs empty_store
                  (opt_or user_id "default")) as O.
    pose proof (plain_key_not_proto _ P) as N.
    destruct (assoc _ (own (checks_run internet cs empty_store))) as [q|] eqn:A.
    + cbn [looked_truthy negb]. split.
      * destruct load; discriminate.
      * intro H. exfalso.
        assert (assoc (opt_or user_id "default")
                      (own (checks_run internet cs empty_store)) <> None) as A'
            by congruence.
        apply A'. apply assoc_none. rewrite O. cbn [empty_store own map In].
        tauto.
    + cbn [looked_truthy negb]. split; [|reflexivity]. intros _.
      apply assoc_none in A. rewrite O in A. tauto.
  - intros st load key I. unfold get_internet_plans, store_get, inherited.
    unfold object_prototype_names in *. cbn [In] in I.
    repeat (destruct I as [<-|I]); try destruct I;
      cbn [opt_or JS.or_else JS.nonempty String.eqb Ascii.eqb Bool.eqb
           existsb orb andb];
      destruct (proto st); try destruct (assoc _ (own st));
      destruct load; discriminate.
  - intros key I. unfold object_prototype_names in *. cbn [In] in I.
    repeat (destruct I as [<-|I]); try destruct I; reflexivity.
Qed.

(** ** The checksum and exchanged digits *)

Lemma get_replace_other (s : string) (i j : nat) (c : ascii) :
  i <> j -> get i (replace_at j c s) = get i s.
Proof.
  revert i j. induction s as [|x r IH]; intros i j N; [reflexivity|].
  destruct j as [|j]; destruct i as [|i]; cbn [replace_at get];
    try reflexivity; [contradiction|].
  apply IH. lia.
Qed.

Lemma digit_char_of_value (c : ascii) (d : ascii) :
  Z.of_N (JS.code c) - 48 = Z.of_N (JS.code d) - 48 <-> c = d.
Proof.
  split; [apply digit_of_value|intros ->; reflexivity].
Qed.

(** X20: the checksum and two neighbouring digits written in the wrong
    order. In a string of digits that passes [luhnCheck], exchanging two
    neighbouring digits gives a string that passes it again in exactly
    three cases: the two digits are equal, or they are 0 and 9 in either
    order. Every other exchange is detected. *)
Theorem luhnCheck_adjacent_swap (s : string) (i : nat) (a b : ascii) :
  JS.all_chars JS.is_digit s = true ->
  get i s = Some a ->
  get (S i) s = Some b ->
  luhnCheck s = true ->
  (luhnCheck (swap_adjacent i s) = true
   <-> a = b \/ (a = "0"%char /\ b = "9"%char)
       \/ (a = "9"%char /\ b = "0"%char)).
Proof.
  intros D Ga Gb V.
  pose proof (get_digit _ _ _ D Ga) as Da.
  pose proof (get_digit _ _ _ D Gb) as Db.
  unfold swap_adjacent. rewrite Ga, Gb.
  assert (get i (replace_at (S i) a s) = Some a) as Ga'
      by (rewrite get_replace_other by lia; exact Ga).
  rewrite luhnCheck_digits in V by assumption.
  rewrite luhnCheck_digits
    by (apply replace_at_digits; [apply replace_at_digits|]; assumption).
  unfold ChecksumSpec.valid in *.
  rewrite (transformed_sum_replace _ i 0 a b Ga').
  rewrite (transformed_sum_replace s (S i) 0 b a Gb).
  rewrite <- (digit_char_of_value a b).
  rewrite <- (digit_char_of_value a "0"), <- (digit_char_of_value b "9"),
    <- (digit_char_of_value a "9"), <- (digit_char_of_value b "0").
  change (Z.of_N (JS.code "0") - 48) with 0.
  change (Z.of_N (JS.code "9") - 48) with 9.
  pose proof (is_digit_value a Da) as Ba.
  pose proof (is_digit_value b Db) as Bb.
  set (va := Z.of_N (JS.code a) - 48) in *.
  set (vb := Z.of_N (JS.code b) - 48) in *.
  apply Z.eqb_eq in V. rewrite Z.eqb_eq.
  apply Z.mod_divide in V; [|lia]. destruct V as [k Hk].
  rewrite Hk. unfold ChecksumSpec.transform.
  replace (0 + S i)%nat with (S i) by lia.
  replace (0 + i)%nat with i by lia.
  rewrite Nat.odd_succ, <- Nat.negb_odd.
  split.
  - intro W. apply Z.mod_divide in W; [|lia]. destruct W as [m Hm].
    destruct (Nat.odd i); cbn [negb] in Hm;
      destruct (9 <? 2 * va) eqn:A; destruct (9 <? 2 * vb) eqn:B;
      try apply Z.ltb_lt in A; try apply Z.ltb_ge in A;
      try apply Z.ltb_lt in B; try apply Z.ltb_ge in B; lia.
  - intro H. apply Z.mod_divide; [lia|]. exists k.
    destruct (Nat.odd i); cbn [negb];
      destruct (9 <? 2 * va) eqn:A; destruct (9 <? 2 * vb) eqn:B;
      try apply Z.ltb_lt in A; try apply Z.ltb_ge in A;
      try apply Z.ltb_lt in B; try apply Z.ltb_ge in B; lia.
Qed.

(** In the identifier 490154203237518 the exchange of 9 and 0 at the
    second and third place is not detected, and the exchange of 4 and 9 at
    the first and second place is. *)
Lemma luhnCheck_adjacent_swap_witness :
  luhnCheck (swap_adjacent 1 "490154203237518") = true
  /\ luhnCheck (swap_adjacent 0 "490154203237518") <> true.
Proof.
  split.
  - apply (luhnCheck_adjacent_swap "490154203237518" 1 "9" "0");
      try reflexivity. right. right. split; reflexivity.
  - intro H.
    apply (luhnCheck_adjacent_swap "490154203237518" 0 "4" "9") in H;
      try reflexivity.
    destruct H as [H|[[H _]|[H _]]]; discriminate H.
Defined.

(** ** The device that is verified and the device that is valued, in the
    report *)

(** What [matchImeiToTradeIn] resolves to, asked without a capacity, when
    the make and the model are found and the model has a variant. *)
Lemma matchImeiToTradeIn_with_resolves (d : TradeInApiResponse)
  (phone : TradeInCategory) (make : TradeInMake) (A : TradeInModel)
  (pfA : TradeInDevice) (restA : list TradeInDevice) (brand model : string) :
  phoneCategory d = Some phone ->
  JS.nonempty brand || JS.nonempty model = true ->
  find (fun m => fuzzy_match (make_name m) brand) (makes phone) = Some make ->
  find (fun m => fuzzy_match (model_name m) model) (models make) = Some A ->
  productFamily A = pfA :: restA ->
  matchImeiToTradeIn_with (Document d)
    (mkImeiDeviceInfo (Some brand) (Some model) (Some model) (Some brand) None)
  = Returns
      (Matched (modelPrice pfA)
         (mkMatchedDevice (make_name make) (model_name A) (capacity pfA)
            (modelCode pfA)
            (map (fun pf => (capacity pf, modelPrice pf, modelCode pf))
                 (productFamily A))
            (image pfA))).
Proof.
  intros P N FM FA VA. unfold matchImeiToTradeIn_with. rewrite P.
  cbn [info_manufacturer info_brand info_modelName info_model info_capacity
       opt_or].
  assert (forall s, JS.or_else s (JS.or_else s EmptyString) = s) as O.
  { intro s. unfold JS.or_else. destruct s; reflexivity. }
  cbv zeta. rewrite !O.
  assert (negb (JS.nonempty brand) && negb (JS.nonempty model) = false) as ->.
  { destruct (JS.nonempty brand), (JS.nonempty model);
      try reflexivity; discriminate N. }
  rewrite FM, FA, VA. reflexivity.
Qed.

(** X21: in the report of [validate_imei], too, the device that is
    verified need not be the device that is valued. Given a brand or a
    model and no model code, the handler takes the model code it sends to
    the gateway from its lookup: a model with a variant whose name
    contains the model given, of a make whose name contains the brand
    given. It asks [matchImeiToTradeIn] for the amount with the names that
    the lookup kept, and that takes the first make and in it the first
    model whose names contain those names or are contained in them. So
    whenever the lookup finds a code, [matchImeiToTradeIn] finds a model
    with a variant and the gateway verifies, the report carries the model
    code of the model of the lookup, and the name, the model code and the
    price of the first variant of the model that [matchImeiToTradeIn]
    found; these are two models whenever the name of the latter does not
    contain the name of the former, as when the catalog lists iPhone 15
    before iPhone 15 Pro and the latter is asked for. *)
Theorem report_values_contained_name (env : Env) (w : World)
  (d : TradeInApiResponse) (phone : TradeInCategory) (make : TradeInMake)
  (A : TradeInModel) (pfA : TradeInDevice) (restA : list TradeInDevice)
  (args : ValidateImeiArgs) (found : Lookup) :
  (forall n, fetched (catalog_fetch_at env n) = Some (Document d)) ->
  tradeInCache w = Null \/ tradeInCache w = Document d ->
  phoneCategory d = Some phone ->
  iv_valid (validateImeiFormat (vi_imei args)) = true ->
  JS.nonempty (opt_or (vi_model_code args) EmptyString) = false ->
  JS.nonempty (opt_or (vi_brand args) EmptyString)
  || JS.nonempty (opt_or (vi_model args) EmptyString) = true ->
  lookup_catalog (JS.toLowerCase (opt_or (vi_brand args) EmptyString))
                 (JS.toLowerCase (opt_or (vi_model args) EmptyString))
                 (makes phone)
                 (mkLookup (opt_or (vi_model_code args) EmptyString)
                           (opt_or (vi_brand args) EmptyString)
                           (opt_or (vi_model args) EmptyString)) = found ->
  JS.nonempty (lk_modelCode found) = true ->
  find (fun m => fuzzy_match (make_name m)
                   (JS.or_else (lk_catalogBrand found)
                               (opt_or (vi_brand args) EmptyString)))
       (makes phone) = Some make ->
  find (fun m => fuzzy_match (model_name m)
                   (JS.or_else (lk_catalogModel found)
                               (opt_or (vi_model args) EmptyString)))
       (models make) = Some A ->
  productFamily A = pfA :: restA ->
  vi_check_tradein args <> Some false ->
  success (client_result
             (hyla_fetch_at env (hyla_calls w)
                (mkHylaQuery (lk_modelCode found)
                   (iv_cleanImei (validateImeiFormat (vi_imei args)))
                   (if_truthy (vi_mtn args))
                   (if_truthy (vi_response_token args))))) = true ->
  exists r dev w' mkB B,
    validate_imei env args w
    = (Returns
         (ValidImei (iv_cleanImei (validateImeiFormat (vi_imei args)))
            (lk_modelCode found) (Some r)
            (SectionValue dev (modelPrice pfA)
               (conditionValue (modelPrice pfA) (vi_good_condition args)))),
       w')
    /\ r = client_result
             (hyla_fetch_at env (hyla_calls w)
                (mkHylaQuery (lk_modelCode found)
                   (iv_cleanImei (validateImeiFormat (vi_imei args)))
                   (if_truthy (vi_mtn args))
                   (if_truthy (vi_response_token args))))
    /\ In mkB (makes phone) /\ In B (models mkB)
    /\ found = mkLookup (first_modelCode B) (make_name mkB) (model_name B)
    /\ (JS.nonempty (opt_or (vi_model args) EmptyString) = true ->
        JS.includes (JS.toLowerCase (model_name B))
                    (JS.toLowerCase (opt_or (vi_model args) EmptyString))
        = true)
    /\ md_brand dev = make_name make
    /\ md_model dev = model_name A
    /\ md_modelCode dev = modelCode pfA
    /\ (JS.includes (JS.toLowerCase (model_name A))
                    (JS.toLowerCase (model_name B)) = false ->
        model_name A <> model_name B).
Proof.
  intros S C P V NoCode Given L NC FM FA VA Ch Sr.
  assert (JS.nonempty
            (JS.or_else (lk_catalogBrand found)
                        (opt_or (vi_brand args) EmptyString))
          || JS.nonempty
               (JS.or_else (lk_catalogModel found)
                           (opt_or (vi_model args) EmptyString)) = true) as Id.
  { apply orb_prop in Given as [G|G];
      [rewrite (or_else_nonempty _ _ G); reflexivity
      |rewrite (or_else_nonempty _ _ G); apply orb_true_r]. }
  pose proof (matchImeiToTradeIn_with_resolves d phone make A pfA restA
                _ _ P Id FM FA VA) as M.
  destruct (validate_imei_shows_value env w d phone args found _ _ _
              S C P V NoCode Given L NC eq_refl Sr Ch M) as (w' & E).
  pose proof NC as NC'. rewrite <- L in NC'.
  destruct (lookup_catalog_found _ _ _ (mkLookup _ _ _) NoCode NC')
    as (mkB & B & IB & IM & Lk & _ & Mo).
  eexists _, _, w', mkB, B.
  split; [exact E|]. split; [reflexivity|].
  split; [exact IB|]. split; [exact IM|].
  split; [rewrite <- L; exact Lk|].
  split; [intro N; apply Mo; rewrite toLowerCase_nonempty; exact N|].
  do 3 (split; [reflexivity|]).
  intros No Eq. rewrite Eq, includes_refl in No. discriminate No.
Qed.

(** The catalog with iPhone 15 before iPhone 15 Pro: the report for the
    iPhone 15 Pro carries the verified code 1002 and the amount 300 of the
    iPhone 15, whose code is 1001. *)
Lemma report_values_contained_name_witness :
  exists r dev w',
    validate_imei nested_env
      (mkValidateImeiArgs fixture_imei (Some "Apple") (Some "iPhone 15 Pro")
                          None None None None None)
      initial_world
    = (Returns (ValidImei fixture_imei "1002" (Some r)
                  (SectionValue dev 300%Q 300)), w')
    /\ md_model dev = "iPhone 15"
    /\ md_modelCode dev = "1001".
Proof.
  pose (args := mkValidateImeiArgs fixture_imei (Some "Apple")
                  (Some "iPhone 15 Pro") None None None None None).
  pose (pfA := mkTradeInDevice "iPhone 15 128GB" "15.png" "1001" 300 "128GB").
  pose (pfB := mkTradeInDevice "iPhone 15 Pro 128GB" "15pro.png" "1002" 500
                               "128GB").
  pose (A := mkTradeInModel "iPhone 15" [pfA]).
  pose (B := mkTradeInModel "iPhone 15 Pro" [pfB]).
  pose (make := mkTradeInMake "Apple" [A; B]).
  pose (phone := mkTradeInCategory "phone" [make]).
  pose (found := mkLookup "1002" "Apple" "iPhone 15 Pro").
  assert (forall n, fetched (catalog_fetch_at nested_env n)
                    = Some (Document nested_catalog)) as S
      by (intro n; reflexivity).
  assert (tradeInCache initial_world = Null
          \/ tradeInCache initial_world = Document nested_catalog) as C
      by (left; reflexivity).
  assert (phoneCategory nested_catalog = Some phone) as P by reflexivity.
  assert (iv_valid (validateImeiFormat (vi_imei args)) = true) as V
      by (vm_compute; reflexivity).
  assert (lookup_catalog
            (JS.toLowerCase (opt_or (vi_brand args) EmptyString))
            (JS.toLowerCase (opt_or (vi_model args) EmptyString))
            (makes phone)
            (mkLookup (opt_or (vi_model_code args) EmptyString)
                      (opt_or (vi_brand args) EmptyString)
                      (opt_or (vi_model args) EmptyString)) = found) as L
      by (vm_compute; reflexivity).
  assert (find (fun m => fuzzy_match (make_name m)
                           (JS.or_else (lk_catalogBrand found)
                              (opt_or (vi_brand args) EmptyString)))
               (makes phone) = Some make) as FM by (vm_compute; reflexivity).
  assert (find (fun m => fuzzy_match (model_name m)
                           (JS.or_else (lk_catalogModel found)
                              (opt_or (vi_model args) EmptyString)))
               (models make) = Some A) as FA by (vm_compute; reflexivity).
  assert (vi_check_tradein args <> Some false) as Ch by discriminate.
  assert (success
            (client_result
               (hyla_fetch_at nested_env (hyla_calls initial_world)
                  (mkHylaQuery (lk_modelCode found)
                     (iv_cleanImei (validateImeiFormat (vi_imei args)))
                     (if_truthy (vi_mtn args))
                     (if_truthy (vi_response_token args))))) = true) as G
      by reflexivity.
  destruct (report_values_contained_name nested_env initial_world
              nested_catalog phone make A pfA [] args found
              S C P V eq_refl eq_refl L eq_refl FM FA eq_refl Ch G)
    as (r & dev & w' & mkB & B' & E & _ & _ & _ & _ & _ & _ & DM & DC & _).
  exists r, dev, w'. split; [exact E|]. split; [exact DM|exact DC].
Defined.
